(** * Featurizer of ITG parse-forest edges (misc/featurizer.py)

    A shallow embedding of the class [Featurizer]: every rule instance of a
    parse forest is mapped to a sparse feature map, a Python
    [defaultdict(float)] from feature names to floats.

    - Python floats are IEEE binary64 numbers: the kernel's primitive floats.
    - A [defaultdict(float)] is a finite map from strings to floats whose
      reads insert the default [0.0] for a missing key.
    - Exceptions are results of an error monad.
    - The modules [lib.libitg], [misc.spans] and [misc.features] are
      collaborators: their operations are the fields of a type class, so every
      theorem holds for all of them; a small concrete instance is used to run
      the code on examples. *)

From Stdlib Require Import Floats ZArith.
From Stdlib Require Uint63.
From stdpp Require Import gmap strings list fin_maps pretty.

Local Open Scope Z_scope.

(** ** Exceptions *)

Inductive exn :=
| AssertionError | IndexError | ValueError | TypeError | AttributeError | KeyError.

Inductive result (A : Type) :=
| Ok (a : A)
| Raise (e : exn).
Arguments Ok {A} a.
Arguments Raise {A} e.

#[global] Instance result_ret : MRet result := λ A, @Ok A.
#[global] Instance result_bind : MBind result := λ A B f r,
  match r with Ok a => f a | Raise e => Raise e end.

Definition is_Ok {A} (r : result A) : Prop := ∃ a, r = Ok a.

(** A loop whose body may raise: the first exception ends it. *)
Fixpoint foldM {A B} (f : B → A → result B) (b : B) (l : list A) : result B :=
  match l with
  | [] => Ok b
  | a :: l => b' ← f b a; foldM f b' l
  end.

(** ** Symbols, spans and rules *)

(** Modelled from the spec: [lib/libitg.py] is not among the sources.  A symbol
    is a terminal, a nonterminal, or a span: a symbol paired with two positions
    of the source lattice.  The right-hand side terminals of a forest are
    spans as well, the code unpacks their [obj()] into a triple. *)
Inductive Symbol :=
| Terminal (symbol : string)
| Nonterminal (symbol : string)
| Span (symbol : Symbol) (start : Z) (end_ : Z).

#[global] Instance Symbol_eq_dec : EqDecision Symbol.
Proof. solve_decision. Defined.

Fixpoint is_terminal (s : Symbol) : bool :=
  match s with
  | Terminal _ => true
  | Nonterminal _ => false
  | Span s _ _ => is_terminal s
  end.

(** [isinstance(s, Nonterminal)]: a span is not an instance of [Nonterminal]. *)
Definition isinstance_Nonterminal (s : Symbol) : bool :=
  match s with Nonterminal _ => true | _ => false end.

(** The Python values the featurizer moves around: symbols, lattice positions
    and strings. *)
Inductive Val :=
| VSym (s : Symbol)
| VInt (z : Z)
| VStr (s : string).

#[global] Instance Val_eq_dec : EqDecision Val.
Proof. solve_decision. Defined.

(** Python's [==] on these values: equal type and equal content. *)
Definition py_eq (a b : Val) : bool := bool_decide (a = b).

(** What [obj()] returns: the label of a bare symbol (a [str]), the triple of
    a span. *)
Inductive Obj :=
| ObjLabel (s : string)
| ObjSpan (s : Symbol) (i j : Z).

Definition obj (x : Symbol) : Obj :=
  match x with
  | Terminal w => ObjLabel w
  | Nonterminal l => ObjLabel l
  | Span s i j => ObjSpan s i j
  end.

(** [o[0]]: the symbol of a triple, the first character of a string. *)
Definition obj_first (o : Obj) : result Val :=
  match o with
  | ObjSpan s _ _ => Ok (VSym s)
  | ObjLabel EmptyString => Raise IndexError
  | ObjLabel (String c _) => Ok (VStr (String c EmptyString))
  end.

(** [a, b, c = o]: a triple unpacks into its components, a string only when it
    has exactly three characters. *)
Definition unpack3 (o : Obj) : result (Val * Val * Val) :=
  match o with
  | ObjSpan s i j => Ok (VSym s, VInt i, VInt j)
  | ObjLabel (String a (String b (String c EmptyString))) =>
      Ok (VStr (String a EmptyString), VStr (String b EmptyString),
          VStr (String c EmptyString))
  | ObjLabel _ => Raise ValueError
  end.

(** [a - b] on positions. *)
Definition py_sub (a b : Val) : result Z :=
  match a, b with
  | VInt x, VInt y => Ok (x - y)
  | _, _ => Raise TypeError
  end.

Record Rule := { lhs : Symbol; rhs : list Symbol }.

#[global] Instance Rule_eq_dec : EqDecision Rule.
Proof. solve_decision. Defined.

(** [l[i]] on a Python list. *)
Definition getitem {A} (l : list A) (i : nat) : result A :=
  match l !! i with
  | Some x => Ok x
  | None => Raise IndexError
  end.

(** A derivation, of which the featurizer reads [_rules[-1]]. *)
Record Derivation := { _rules : list Rule }.

(** [Dxy._rules[-1]]; [Dxy] may be [None]. *)
Definition last_rule (Dxy : option Derivation) : result Rule :=
  match Dxy with
  | None => Raise AttributeError
  | Some d =>
      match last (_rules d) with
      | Some r => Ok r
      | None => Raise IndexError
      end
  end.

(** ** Feature maps *)

Abbreviation FeatureMap := (gmap string float).

Definition f0 : float := 0%float.
Definition f1 : float := 1%float.

(** The literal [1e-10]: the binary64 number nearest to it. *)
Definition eps : float := 0x1.b7cdfd9d7bdbbp-34%float.

(** [fmap[k] += v] on a [defaultdict(float)]. *)
Definition iadd (k : string) (v : float) (fmap : FeatureMap) : FeatureMap :=
  <[k := PrimFloat.add (default f0 (fmap !! k)) v]> fmap.

(** [fmap[k] = v]. *)
Definition setitem (k : string) (v : float) (fmap : FeatureMap) : FeatureMap :=
  <[k := v]> fmap.

(** A bare read [fmap[k]]: a missing key is inserted with the default. *)
Definition touch (k : string) (fmap : FeatureMap) : FeatureMap :=
  <[k := default f0 (fmap !! k)]> fmap.

(** ["%d" % n]. *)
Definition fmt_d (n : Z) : string := pretty n.

(** ** numpy vectors *)

Definition np_zeros (n : nat) : list float := replicate n f0.

(** [a += b] on one-dimensional arrays: equal lengths, or [b] of length one
    broadcast over [a]. *)
Definition np_iadd (a b : list float) : result (list float) :=
  if decide (length b = length a) then Ok (zip_with PrimFloat.add a b)
  else match b with
       | [x] => Ok (map (λ y, PrimFloat.add y x) a)
       | _ => Raise ValueError
       end.

(** ** The inputs of the constructor *)

(** An embedding table: [dim()], [get(word)] and [get_cluster_id(word)]; both
    lookups are total. *)
Record Embeddings := {
  dim : nat;
  get : string → list float;
  get_cluster_id : string → Z
}.

(** Every vector of the table has the table's dimension. *)
Definition emb_wf (e : Embeddings) : Prop := ∀ w, length (get e w) = dim e.

Record Featurizer := {
  ibm1_probs : string * string → float;
  embeddings_ch : Embeddings;
  embeddings_en : Embeddings;
  word_class_features : bool;
  dense_word_emb_features : bool;
  sparse_word_features : bool
}.

(** ** Collaborators *)

(** The lattice of [lib.libitg], the span queries of [misc.spans], the
    container of [misc.features] and numpy's logarithm. *)
Class Collaborators := {
  FSA : Type;
  make_fsa : string → FSA;
  nb_states : FSA → Z;
  get_phrase : FSA → Val → Val → result (list string);
  get_source_word : FSA → Val → Val → result string;
  get_target_word : Val → result string;
  np_log : float → float;
  Features : Type;
  Features_new : Features;
  Features_add : Features → Rule → FeatureMap → Features
}.

(** ** The featurizer *)

Section featurizer.
Context `{Collaborators}.
Variable self : Featurizer.

(** [for i in range(n): fmap[key % i] = vec(i)], where reading the [i]-th
    component may raise. *)
Definition emit_dims (key : string) (vec : nat → result float) (n : nat)
    (fmap : FeatureMap) : result FeatureMap :=
  foldM (λ fmap i, x ← vec i; Ok (setitem (key +:+ fmt_d (Z.of_nat i)) x fmap))
        fmap (seq 0 n).

(** [for dim, val in enumerate(vec): fmap[key % dim] = val]. *)
Definition emit_enumerate (key : string) (vec : list float)
    (fmap : FeatureMap) : FeatureMap :=
  foldl (λ fmap p, setitem (key +:+ fmt_d (Z.of_nat p.1)) p.2 fmap)
        fmap (zip (seq 0 (length vec)) vec).

(** [repr = np.zeros(dim); for word in phrase: repr += embeddings.get(word)]. *)
Definition phrase_repr (e : Embeddings) (phrase : list string) : result (list float) :=
  foldM (λ repr word, np_iadd repr (get e word)) (np_zeros (dim e)) phrase.

(** [for i in range(len(l)): for j in range(i+1, len(l)): fmap[key(l[i], l[j])] += 1.0]. *)
Definition skip_grams {A} (key : A → A → string) (l : list A)
    (fmap : FeatureMap) : FeatureMap :=
  foldl (λ fmap i,
    foldl (λ fmap j,
      match l !! i, l !! j with
      | Some a, Some b => iadd (key a b) f1 fmap
      | _, _ => fmap
      end) fmap (seq (S i) (length l - S i)))
    fmap (seq 0 (length l)).

Definition _featurize_upgrade_rule (rule : Rule) (src_fsa : FSA)
    (fmap : FeatureMap) : result FeatureMap :=
  '(lhs_symbol, lhs_start, lhs_end) ← unpack3 (obj (lhs rule));
  r0 ← getitem (rhs rule) 0;
  '(rhs_symbol, rhs_start, rhs_end) ← unpack3 (obj r0);
  if py_eq lhs_symbol (VSym (Nonterminal "X")) then
    if py_eq rhs_symbol (VSym (Nonterminal "T")) then
      Ok (iadd "type:upgrade_t" f1 fmap)
    else if py_eq rhs_symbol (VSym (Nonterminal "D")) then
      Ok (iadd "type:upgrade_d" f1 fmap)
    else if py_eq rhs_symbol (VSym (Nonterminal "T")) then
      Ok (iadd "type:upgrade_t" f1 fmap)
    else Ok fmap
  else Ok fmap.

Definition _featurize_binary_rule (rule : Rule) (src_fsa : FSA)
    (fmap : FeatureMap) : result FeatureMap :=
  let fmap := iadd "type:binary" f1 fmap in
  '(lhs_symbol, lhs_start, lhs_end) ← unpack3 (obj (lhs rule));
  r0 ← getitem (rhs rule) 0;
  '(rhs_symbol_1, rhs_start_1, rhs_end_1) ← unpack3 (obj r0);
  r1 ← getitem (rhs rule) 1;
  '(rhs_symbol_2, rhs_start_2, rhs_end_2) ← unpack3 (obj r1);
  if py_eq lhs_symbol (VSym (Nonterminal "D")) then
    Ok (iadd "binary:recursive_deletion" f1 fmap)
  else if py_eq lhs_symbol (VSym (Nonterminal "X")) then
    let fmap :=
      if py_eq lhs_start rhs_start_2 then iadd "binary:inverted" f1 fmap
      else iadd "binary:monotone" f1 fmap in
    src_inside_phrase ← get_phrase src_fsa lhs_start lhs_end;
    if decide (0 < length src_inside_phrase)%nat then
      inside_repr ← phrase_repr (embeddings_ch self) src_inside_phrase;
      let fmap := emit_enumerate "inside-phrase-" inside_repr fmap in
      before ← get_phrase src_fsa (VInt 0) lhs_start;
      after ← get_phrase src_fsa lhs_end (VInt (nb_states src_fsa));
      let src_outside_phrase := before ++ after in
      fmap ←
        (if decide (0 < length src_outside_phrase)%nat then
           outside_repr ← phrase_repr (embeddings_ch self) src_outside_phrase;
           Ok (emit_enumerate "outside-phrase-" outside_repr fmap)
         else Ok fmap);
      rhs_1 ← get_phrase src_fsa rhs_start_1 rhs_end_1;
      rhs_2 ← get_phrase src_fsa rhs_start_2 rhs_end_2;
      let rhs_phrase := rhs_1 ++ rhs_2 in
      let fmap :=
        skip_grams (λ a b, "skip-gram:" +:+ a +:+ "/" +:+ b) rhs_phrase fmap in
      let fmap :=
        if word_class_features self then
          let rhs_word_classes :=
            map (get_cluster_id (embeddings_ch self)) rhs_phrase in
          skip_grams (λ a b, "skip-gram:word-classes:" +:+ fmt_d a +:+ "/" +:+ fmt_d b)
                     rhs_word_classes fmap
        else fmap in
      source_span_len ← py_sub lhs_end lhs_start;
      Ok (iadd ("source-span-len-" +:+ fmt_d source_span_len) f1 fmap)
    else Raise AssertionError
  else Ok fmap.

Definition _featurize_start_rule (rule : Rule) (src_fsa : FSA)
    (fmap : FeatureMap) : result FeatureMap :=
  Ok (iadd "top" f1 fmap).

Definition _featurize_terminal_rule (rule : Rule) (src_fsa : FSA)
    (fmap : FeatureMap) : result FeatureMap :=
  let fmap := iadd "type:terminal" f1 fmap in
  '(lhs_symbol, lhs_start, lhs_end) ← unpack3 (obj (lhs rule));
  r0 ← getitem (rhs rule) 0;
  '(rhs_symbol, rhs_start, rhs_end) ← unpack3 (obj r0);
  if py_eq lhs_symbol (VSym (Nonterminal "D")) then
    let fmap := iadd "type:deletion" f1 fmap in
    src_word ← get_source_word src_fsa lhs_start lhs_end;
    let fmap :=
      iadd "ibm1:del:logprob"
           (np_log (ibm1_probs self (src_word, "-EPS-") + eps)%float) fmap in
    let fmap :=
      if sparse_word_features self then iadd ("del:" +:+ src_word) f1 fmap
      else fmap in
    let fmap :=
      if word_class_features self && sparse_word_features self then
        let src_class := get_cluster_id (embeddings_ch self) src_word in
        iadd ("del:class:" +:+ fmt_d src_class) f1 fmap
      else fmap in
    if dense_word_emb_features self then
      let ch_emb := get (embeddings_ch self) src_word in
      emit_dims "del:emb:dim-" (λ i, getitem ch_emb i)
                (dim (embeddings_ch self)) fmap
    else Ok fmap
  else if py_eq lhs_symbol (VSym (Nonterminal "I")) then
    let fmap := iadd "type:insertion" f1 fmap in
    let fmap := iadd "target-len" f1 fmap in
    tgt_word ← get_target_word rhs_symbol;
    let fmap :=
      iadd "ibm1:ins:logprob"
           (np_log (ibm1_probs self ("-EPS-", tgt_word) + eps)%float) fmap in
    let fmap :=
      if sparse_word_features self then iadd ("ins:" +:+ tgt_word) f1 fmap
      else fmap in
    let fmap :=
      if word_class_features self && sparse_word_features self then
        let tgt_class := get_cluster_id (embeddings_en self) tgt_word in
        touch ("ins:class:" +:+ fmt_d tgt_class) fmap
      else fmap in
    if dense_word_emb_features self then
      let en_emb := get (embeddings_en self) tgt_word in
      emit_dims "ins:emb:dim-" (λ i, getitem en_emb i)
                (dim (embeddings_ch self)) fmap
    else Ok fmap
  else if py_eq lhs_symbol (VSym (Nonterminal "T")) then
    let fmap := iadd "type:translation" f1 fmap in
    let fmap := iadd "target-len" f1 fmap in
    src_word ← get_source_word src_fsa lhs_start lhs_end;
    tgt_word ← get_target_word rhs_symbol;
    let fmap :=
      iadd "ibm1:x2y:logprob"
           (np_log (ibm1_probs self (src_word, tgt_word) + eps)%float) fmap in
    let fmap :=
      iadd "ibm1:y2x:logprob"
           (np_log (ibm1_probs self (tgt_word, src_word) + eps)%float) fmap in
    let fmap :=
      iadd "ibm1:geometric:log"
           (np_log (PrimFloat.sqrt (ibm1_probs self (src_word, tgt_word)
                          * ibm1_probs self (tgt_word, src_word) + eps) + eps)%float)
           fmap in
    let fmap :=
      if sparse_word_features self then
        iadd ("trans:" +:+ src_word +:+ "/" +:+ tgt_word) f1 fmap
      else fmap in
    let fmap :=
      if word_class_features self && sparse_word_features self then
        let src_class := get_cluster_id (embeddings_ch self) src_word in
        let tgt_class := get_cluster_id (embeddings_en self) tgt_word in
        iadd ("trans:class:" +:+ fmt_d src_class +:+ "/" +:+ fmt_d tgt_class) f1 fmap
      else fmap in
    if dense_word_emb_features self then
      let ch_emb := get (embeddings_ch self) src_word in
      let en_emb := get (embeddings_en self) tgt_word in
      emit_dims "trans:emb:dim-"
                (λ i, a ← getitem ch_emb i; b ← getitem en_emb i; Ok (a - b)%float)
                (dim (embeddings_ch self)) fmap
    else Ok fmap
  else Ok fmap.

Definition _featurize_edge (edge : Rule) (src_fsa : FSA) : result FeatureMap :=
  let fmap : FeatureMap := ∅ in
  if decide (length (rhs edge) = 2%nat) then
    _featurize_binary_rule edge src_fsa fmap
  else
    r0 ← getitem (rhs edge) 0;
    if is_terminal r0 then _featurize_terminal_rule edge src_fsa fmap
    else
      head ← obj_first (obj (lhs edge));
      if negb (py_eq head (VSym (Nonterminal "X"))) then
        if negb (isinstance_Nonterminal (lhs edge)) then
          _featurize_start_rule edge src_fsa fmap
        else Ok fmap
      else _featurize_upgrade_rule edge src_fsa fmap.

(** [features.add(edge, self._featurize_edge(edge, src_fsa))]. *)
Definition add_edge (src_fsa : FSA) (features : Features) (edge : Rule)
    : result Features :=
  fmap ← _featurize_edge edge src_fsa;
  Ok (Features_add features edge fmap).

Definition featurize_parse_trees_batch
    (batch : list (list Rule * option Derivation * string * string))
    : result Features :=
  foldM (λ features '(Dx, Dxy, source, target),
    let src_fsa := make_fsa source in
    features ← foldM (add_edge src_fsa) features Dx;
    r ← last_rule Dxy;
    add_edge src_fsa features r) Features_new batch.

Definition featurize_parse_trees (Dx : list Rule) (Dxy : option Derivation)
    (x : string) : result Features :=
  let src_fsa := make_fsa x in
  let features := Features_new in
  features ← foldM (add_edge src_fsa) features Dx;
  match Dxy with
  | Some _ => r ← last_rule Dxy; add_edge src_fsa features r
  | None => Ok features
  end.

End featurizer.

(** ** A concrete set of collaborators, to run the code *)

(** Modelled from the spec: [lib/libitg.py], [misc/spans.py] and
    [misc/features.py] are not among the sources.  The lattice of a sentence is
    the list of its words, with one more state than words; a span query returns
    the words between two states; the container keeps the entries in the order
    they are added.  The logarithm is a series approximation standing in for
    numpy's; no theorem below depends on these choices. *)
Module Demo.

Definition words_in_span (fsa : list string) (i j : Z) : list string :=
  take (Z.to_nat (j - i)) (drop (Z.to_nat i) fsa).

Definition phrase (fsa : list string) (a b : Val) : result (list string) :=
  match a, b with
  | VInt i, VInt j => Ok (words_in_span fsa i j)
  | _, _ => Raise TypeError
  end.

Definition source_word (fsa : list string) (a b : Val) : result string :=
  ws ← phrase fsa a b;
  match ws with
  | [w] => Ok w
  | _ => Raise AssertionError
  end.

Fixpoint root_word (s : Symbol) : result string :=
  match s with
  | Terminal w => Ok w
  | Nonterminal _ => Raise AttributeError
  | Span s _ _ => root_word s
  end.

Definition target_word (v : Val) : result string :=
  match v with
  | VSym s => root_word s
  | _ => Raise AttributeError
  end.

Definition float_of_Z (z : Z) : float :=
  match z with
  | Z0 => 0%float
  | Zpos _ => of_uint63 (Uint63.of_Z z)
  | Zneg _ => (- of_uint63 (Uint63.of_Z (- z)))%float
  end.

Definition ln2 : float := 0x1.62e42fefa39efp-1%float.
Definition sqrt_half : float := 0x1.6a09e667f3bcdp-1%float.

(** [x = m * 2^e] with [m] near one, and [ln m = 2 atanh ((m - 1) / (m + 1))]. *)
Definition log_series (x : float) : float :=
  let '(m, e) := frshiftexp x in
  let e := Uint63.to_Z e - FloatOps.shift in
  let '(m, e) := if (m <? sqrt_half)%float then ((2 * m)%float, e - 1) else (m, e) in
  let t := ((m - 1) / (m + 1))%float in
  let t2 := (t * t)%float in
  let s := (2 * t * (1 + t2 * (1/3 + t2 * (1/5 + t2 * (1/7 + t2 * (1/9
             + t2 * (1/11 + t2 * (1/13 + t2 / 15))))))))%float in
  (float_of_Z e * ln2 + s)%float.

#[export] Instance collaborators : Collaborators := {|
  FSA := list string;
  make_fsa := String.words;
  nb_states fsa := Z.of_nat (length fsa) + 1;
  get_phrase := phrase;
  get_source_word := source_word;
  get_target_word := target_word;
  np_log := log_series;
  Features := list (Rule * FeatureMap);
  Features_new := [];
  Features_add fs r m := fs ++ [(r, m)]
|}.

(** Two small embedding tables and an alignment table. *)
Definition emb (n : nat) (vec : string → list float) (cls : string → Z) : Embeddings :=
  {| dim := n; get := vec; get_cluster_id := cls |}.

Definition vec2 (w : string) : list float :=
  if decide (w = "the") then [0.5; 0.25]%float
  else if decide (w = "cat") then [1; 2]%float
  else if decide (w = "le") then [0.125; 4]%float
  else [0; 0]%float.

Definition vec1 (w : string) : list float := [0.5%float].

Definition cluster (w : string) : Z :=
  if decide (w = "the") then 7
  else if decide (w = "le") then 3
  else 0.

Definition probs (p : string * string) : float :=
  if decide (p = ("the", "le")) then 0.75%float
  else if decide (p = ("le", "the")) then 0.5%float
  else 0.25%float.

Definition featurizer (word_class dense sparse : bool) : Featurizer :=
  {| ibm1_probs := probs;
     embeddings_ch := emb 2 vec2 cluster;
     embeddings_en := emb 2 vec2 cluster;
     word_class_features := word_class;
     dense_word_emb_features := dense;
     sparse_word_features := sparse |}.

(** A featurizer whose two tables have the dimensions [n_ch] and [n_en]. *)
Definition featurizer_dims (n_ch n_en : nat) : Featurizer :=
  {| ibm1_probs := probs;
     embeddings_ch := emb n_ch (if decide (n_ch = 1%nat) then vec1 else vec2) cluster;
     embeddings_en := emb n_en (if decide (n_en = 1%nat) then vec1 else vec2) cluster;
     word_class_features := true;
     dense_word_emb_features := true;
     sparse_word_features := true |}.

Definition X (i j : Z) : Symbol := Span (Nonterminal "X") i j.
Definition word (w : string) (i j : Z) : Symbol := Span (Terminal w) i j.

Definition deletion_rule : Rule :=
  {| lhs := Span (Nonterminal "D") 0 1; rhs := [word "-EPS-" 0 1] |}.
Definition insertion_rule : Rule :=
  {| lhs := Span (Nonterminal "I") 0 0; rhs := [word "le" 0 0] |}.
Definition translation_rule : Rule :=
  {| lhs := Span (Nonterminal "T") 0 1; rhs := [word "le" 0 1] |}.
Definition upgrade_rule : Rule :=
  {| lhs := X 0 1; rhs := [Span (Nonterminal "T") 0 1] |}.
Definition start_span_rule : Rule :=
  {| lhs := Span (Nonterminal "S") 0 2; rhs := [X 0 2] |}.
Definition goal_rule : Rule :=
  {| lhs := Nonterminal "S"; rhs := [X 0 2] |}.
Definition monotone_rule : Rule :=
  {| lhs := X 0 2; rhs := [X 0 1; X 1 2] |}.
Definition inverted_rule : Rule :=
  {| lhs := X 0 2; rhs := [X 1 2; X 0 1] |}.
Definition empty_span_rule : Rule :=
  {| lhs := X 1 1; rhs := [X 1 1; X 1 1] |}.

Definition derivation : Derivation := {| _rules := [translation_rule] |}.

Definition sentence : string := "the cat".

End Demo.

(** ** Vocabulary of the statements *)

(** The span query answers on the span from position [a] to position [b]. *)
Definition resolves `{Collaborators} (fsa : FSA) (a b : Z) : Prop :=
  is_Ok (get_phrase fsa (VInt a) (VInt b)).

(** A batch tuple without its target sentence. *)
Definition without_target (t : list Rule * option Derivation * string * string)
    : list Rule * option Derivation * string :=
  let '(Dx, Dxy, source, target) := t in (Dx, Dxy, source).

(** [k] begins with the characters of [p]. *)
Fixpoint starts_with (p k : string) : bool :=
  match p with
  | EmptyString => true
  | String a p =>
      match k with
      | EmptyString => false
      | String b k => Ascii.eqb a b && starts_with p k
      end
  end.

(** The feature names with one of the prefixes [del:], [ins:], [trans:]. *)
Definition lexical (k : string) : bool :=
  starts_with "del:" k || starts_with "ins:" k || starts_with "trans:" k.

(** The featurizer constructed with another value of [sparse_word_features],
    all other arguments unchanged. *)
Definition with_sparse_word_features (b : bool) (self : Featurizer) : Featurizer :=
  {| ibm1_probs := ibm1_probs self;
     embeddings_ch := embeddings_ch self;
     embeddings_en := embeddings_en self;
     word_class_features := word_class_features self;
     dense_word_emb_features := dense_word_emb_features self;
     sparse_word_features := b |}.

(** The names [<prefix>emb:dim-<i>] that the dense embedding features emit. *)
Definition dense_key (self : Featurizer) (k : string) : Prop :=
  dense_word_emb_features self = true ∧
  ∃ i : nat, (i < dim (embeddings_ch self))%nat ∧
    (k = "del:emb:dim-" +:+ fmt_d (Z.of_nat i)
     ∨ k = "ins:emb:dim-" +:+ fmt_d (Z.of_nat i)
     ∨ k = "trans:emb:dim-" +:+ fmt_d (Z.of_nat i)).

(** How the outcome with [sparse_word_features] disabled relates to the
    outcome with it enabled. *)
Definition sparse_off_agrees (self : Featurizer) (on off : result FeatureMap) : Prop :=
  match on, off with
  | Ok m_on, Ok m_off =>
      ∀ k, (lexical k = true → ¬ dense_key self k → m_off !! k = None)
           ∧ (lexical k = false ∨ dense_key self k → m_off !! k = m_on !! k)
  | Raise e_on, Raise e_off => e_on = e_off
  | _, _ => False
  end.

(** The featurizer constructed with another value of [word_class_features],
    all other arguments unchanged. *)
Definition with_word_class_features (b : bool) (self : Featurizer) : Featurizer :=
  {| ibm1_probs := ibm1_probs self;
     embeddings_ch := embeddings_ch self;
     embeddings_en := embeddings_en self;
     word_class_features := b;
     dense_word_emb_features := dense_word_emb_features self;
     sparse_word_features := sparse_word_features self |}.

(** The featurizer constructed with another value of
    [dense_word_emb_features], all other arguments unchanged. *)
Definition with_dense_word_emb_features (b : bool) (self : Featurizer) : Featurizer :=
  {| ibm1_probs := ibm1_probs self;
     embeddings_ch := embeddings_ch self;
     embeddings_en := embeddings_en self;
     word_class_features := word_class_features self;
     dense_word_emb_features := b;
     sparse_word_features := sparse_word_features self |}.

(** The feature names of the word class features. *)
Definition class_key (k : string) : bool :=
  starts_with "skip-gram:word-classes:" k || starts_with "del:class:" k
  || starts_with "ins:class:" k || starts_with "trans:class:" k.

(** The feature names of the dense embedding features of terminal rules. *)
Definition emb_key (k : string) : bool :=
  starts_with "del:emb:dim-" k || starts_with "ins:emb:dim-" k
  || starts_with "trans:emb:dim-" k.

(** Two outcomes raise the same exception, or return maps that agree on the
    names selected by [P]. *)
Definition agree_where (P : string → bool) (r1 r2 : result FeatureMap) : Prop :=
  match r1, r2 with
  | Ok m1, Ok m2 => ∀ k, P k = true → m1 !! k = m2 !! k
  | Raise e1, Raise e2 => e1 = e2
  | _, _ => False
  end.

(** The component-wise sum of the vectors of the words of a phrase, starting
    from the zero vector of the table's dimension. *)
Definition phrase_sum (e : Embeddings) (phrase : list string) : list float :=
  foldl (zip_with PrimFloat.add) (np_zeros (dim e)) (get e <$> phrase).

(** A name incremented [n] times by [1.0], from the value [v] it had (the
    default [0.0] when it was missing). *)
Fixpoint bump (n : nat) (v : option float) : option float :=
  match n with
  | O => v
  | S n => bump n (Some (PrimFloat.add (default f0 v) f1))
  end.

(** The number of pairs of positions [i < j] of [l] whose elements are named
    [k] by [key]. *)
Fixpoint pair_count {A} (key : A → A → string) (l : list A) (k : string) : nat :=
  match l with
  | [] => 0
  | a :: l => length (filter (λ b, key a b = k) l) + pair_count key l k
  end.

(** The tuple carries a best derivation that has a last rule. *)
Definition carries_last_rule (t : list Rule * option Derivation * string * string)
    : Prop :=
  let '(Dx, Dxy, source, target) := t in ∃ d, Dxy = Some d ∧ _rules d ≠ [].

(** * Properties *)

#[global] Arguments py_eq : simpl never.
#[global] Arguments sparse_off_agrees : simpl never.
#[global] Arguments iadd : simpl never.
#[global] Arguments setitem : simpl never.
#[global] Arguments touch : simpl never.
#[global] Arguments fmt_d : simpl never.
#[global] Arguments emit_dims : simpl never.
#[global] Arguments emit_enumerate : simpl never.
#[global] Arguments skip_grams : simpl never.
#[global] Arguments phrase_repr : simpl never.

(** ** Reads of a feature map after a write *)

Lemma lookup_iadd_eq k v (m : FeatureMap) :
  iadd k v m !! k = Some (PrimFloat.add (default f0 (m !! k)) v).
Proof. apply lookup_insert_eq. Qed.

Lemma lookup_iadd_ne k k' v (m : FeatureMap) :
  k ≠ k' → iadd k v m !! k' = m !! k'.
Proof. intros. by apply lookup_insert_ne. Qed.

Lemma lookup_setitem_eq k v (m : FeatureMap) : setitem k v m !! k = Some v.
Proof. apply lookup_insert_eq. Qed.

Lemma lookup_setitem_ne k k' v (m : FeatureMap) :
  k ≠ k' → setitem k v m !! k' = m !! k'.
Proof. intros. by apply lookup_insert_ne. Qed.

Lemma lookup_touch_eq k (m : FeatureMap) :
  touch k m !! k = Some (default f0 (m !! k)).
Proof. apply lookup_insert_eq. Qed.

Lemma lookup_touch_ne k k' (m : FeatureMap) :
  k ≠ k' → touch k m !! k' = m !! k'.
Proof. intros. by apply lookup_insert_ne. Qed.

Lemma py_eq_sym_true s : py_eq (VSym s) (VSym s) = true.
Proof. unfold py_eq. by rewrite bool_decide_eq_true. Qed.

Lemma py_eq_sym s t : py_eq (VSym s) (VSym t) = bool_decide (s = t).
Proof. unfold py_eq. apply bool_decide_ext. split; congruence. Qed.

(** ** The error monad *)

Lemma bind_Ok_inv {A B} (r : result A) (f : A → result B) b :
  r ≫= f = Ok b → ∃ a, r = Ok a ∧ f a = Ok b.
Proof. destruct r as [a|e]; simpl; [eauto|done]. Qed.

(** Inverts the successful run [Hrun] of a sequence of binds: one equation
    per step. *)
Ltac bind_inv Hrun :=
  repeat
    (let a := fresh "a" in
     let Ha := fresh "Hstep" in
     apply bind_Ok_inv in Hrun as (a & Ha & Hrun);
     try (destruct a as [[? ?] ?]); simpl in Hrun).

(** A feature name of one family differs from a name of another family: the
    two disagree on a character of their fixed prefixes. *)
Ltac key_ne :=
  unfold not; intros;
  match goal with
  | Heq : @eq string _ _ |- _ => cbv [String.append] in Heq; discriminate Heq
  end.

(** ** Floats *)

(** Adding to the default [0.0] of a fresh key returns the addend, unless the
    addend is the negative zero: [0.0 + -0.0] is [0.0]. *)
Lemma float_zero_add (x : float) : x ≠ neg_zero → PrimFloat.add f0 x = x.
Proof.
  intros Hx. apply Prim2SF_inj. rewrite add_spec.
  change (Prim2SF f0) with (S754_zero false).
  destruct (Prim2SF x) as [s|s| |s mx ex] eqn:Hsf; try reflexivity.
  destruct s; [|reflexivity].
  exfalso. apply Hx, Prim2SF_inj. by rewrite Hsf.
Qed.

(** Reads the value of a key through the increments of other keys. *)
Ltac lookup_iadd :=
  repeat first
    [ rewrite lookup_iadd_ne by key_ne
    | rewrite lookup_touch_ne by key_ne
    | rewrite lookup_setitem_ne by key_ne
    | rewrite lookup_iadd_eq
    | rewrite lookup_touch_eq
    | rewrite lookup_setitem_eq
    | rewrite lookup_empty ].

(** A feature name differs from every name on which the test [P] of the
    hypothesis [H : P k = b] evaluates to the other boolean. *)
Ltac key_ne_by H :=
  unfold not; intros; subst; lazy in H; discriminate H.

(** ** Feature names *)

Lemma string_app_assoc (a b c : string) : (a +:+ b) +:+ c = a +:+ (b +:+ c).
Proof.
  induction a as [|x a IH]; [done|].
  change (String x ((a +:+ b) +:+ c) = String x (a +:+ (b +:+ c))).
  by rewrite IH.
Qed.

Lemma starts_with_app p s : starts_with p (p +:+ s) = true.
Proof.
  induction p as [|a p IH]; [done|].
  change (Ascii.eqb a a && starts_with p (p +:+ s) = true).
  by rewrite Ascii.eqb_refl, IH.
Qed.

Lemma starts_with_inv p k : starts_with p k = true → ∃ s, k = p +:+ s.
Proof.
  revert k. induction p as [|a p IH]; intros k Hk; [by exists k|].
  destruct k as [|b k]; [done|]. cbn [starts_with] in Hk.
  apply andb_true_iff in Hk as [Hab Hk]. apply Ascii.eqb_eq in Hab as ->.
  destruct (IH _ Hk) as [s ->]. by exists s.
Qed.

Lemma lexical_false k :
  lexical k = false →
  starts_with "del:" k = false ∧ starts_with "ins:" k = false
  ∧ starts_with "trans:" k = false.
Proof.
  unfold lexical. intros Hk.
  apply orb_false_elim in Hk as [Hk ?]. by apply orb_false_elim in Hk as [??].
Qed.

Lemma fmt_d_inj (a b : Z) : fmt_d a = fmt_d b → a = b.
Proof. unfold fmt_d. apply (inj pretty). Qed.

Lemma dim_key_inj key (i j : nat) :
  key +:+ fmt_d (Z.of_nat i) = key +:+ fmt_d (Z.of_nat j) → i = j.
Proof.
  intros Heq. apply (inj (String.app key)) in Heq.
  apply fmt_d_inj in Heq. lia.
Qed.

(** ** Loops over a feature map *)

(** A key that the loop does not write keeps its value. *)
Lemma lookup_foldl_ne {A} (f : FeatureMap → A → FeatureMap) (l : list A) k :
  (∀ m a, a ∈ l → f m a !! k = m !! k) →
  ∀ m, foldl f m l !! k = m !! k.
Proof.
  induction l as [|a l IH]; intros Hf m; [done|]. simpl.
  rewrite IH.
  - apply Hf. left.
  - intros m' a' Ha'. apply Hf. by right.
Qed.

Lemma lookup_emit_enumerate_ne key vec (m : FeatureMap) k :
  (∀ i : nat, k ≠ key +:+ fmt_d (Z.of_nat i)) →
  emit_enumerate key vec m !! k = m !! k.
Proof.
  intros Hk. unfold emit_enumerate. apply lookup_foldl_ne.
  intros m' [i x] _. simpl. apply lookup_setitem_ne. by apply not_eq_sym.
Qed.

Lemma lookup_skip_grams_ne {A} (key : A → A → string) (l : list A)
    (m : FeatureMap) k :
  (∀ a b, k ≠ key a b) → skip_grams key l m !! k = m !! k.
Proof.
  intros Hk. unfold skip_grams. apply lookup_foldl_ne.
  intros m' i _. apply lookup_foldl_ne. intros m'' j _.
  destruct (l !! i), (l !! j); try done.
  apply lookup_iadd_ne. by apply not_eq_sym.
Qed.

(** The loop over the dimensions, from dimension [j] on. *)
Lemma foldM_dims_ne key vec k : ∀ n j (m m' : FeatureMap),
  foldM (λ fmap i, x ← vec i; Ok (setitem (key +:+ fmt_d (Z.of_nat i)) x fmap))
        m (seq j n) = Ok m' →
  (∀ i, (j ≤ i < j + n)%nat → k ≠ key +:+ fmt_d (Z.of_nat i)) →
  m' !! k = m !! k.
Proof.
  induction n as [|n IH]; intros j m m' Hrun Hk; simpl in Hrun.
  - by injection Hrun as <-.
  - destruct (vec j) as [x|e] eqn:Hx; simpl in Hrun; [|done].
    rewrite (IH _ _ _ Hrun).
    + apply lookup_setitem_ne, not_eq_sym, Hk. lia.
    + intros i Hi. apply Hk. lia.
Qed.

Lemma foldM_dims_eq key vec : ∀ n j (m m' : FeatureMap) i,
  foldM (λ fmap i, x ← vec i; Ok (setitem (key +:+ fmt_d (Z.of_nat i)) x fmap))
        m (seq j n) = Ok m' →
  (j ≤ i < j + n)%nat →
  ∃ x, vec i = Ok x ∧ m' !! (key +:+ fmt_d (Z.of_nat i)) = Some x.
Proof.
  induction n as [|n IH]; intros j m m' i Hrun Hi; simpl in Hrun; [lia|].
  destruct (vec j) as [x|e] eqn:Hx; simpl in Hrun; [|done].
  destruct (decide (i = j)) as [->|Hne].
  - exists x. split; [done|].
    rewrite (foldM_dims_ne _ _ _ _ _ _ _ Hrun).
    + apply lookup_setitem_eq.
    + intros i' Hi' Heq. apply dim_key_inj in Heq. lia.
  - apply (IH _ _ _ _ Hrun). lia.
Qed.

(** Whether the loop raises does not depend on the map it writes to. *)
Lemma foldM_dims_raise key vec e : ∀ n j (m1 m2 : FeatureMap),
  foldM (λ fmap i, x ← vec i; Ok (setitem (key +:+ fmt_d (Z.of_nat i)) x fmap))
        m1 (seq j n) = Raise e →
  foldM (λ fmap i, x ← vec i; Ok (setitem (key +:+ fmt_d (Z.of_nat i)) x fmap))
        m2 (seq j n) = Raise e.
Proof.
  induction n as [|n IH]; intros j m1 m2 Hrun; simpl in *; [done|].
  destruct (vec j) as [x|e']; simpl in *; [|done].
  by apply (IH _ _ _ Hrun).
Qed.

Lemma emit_dims_lookup_ne key vec n (m m' : FeatureMap) k :
  emit_dims key vec n m = Ok m' →
  (∀ i, (i < n)%nat → k ≠ key +:+ fmt_d (Z.of_nat i)) →
  m' !! k = m !! k.
Proof.
  intros Hrun Hk. apply (foldM_dims_ne _ _ _ _ _ _ _ Hrun).
  intros i Hi. apply Hk. lia.
Qed.

Lemma emit_dims_lookup key vec n (m m' : FeatureMap) i :
  emit_dims key vec n m = Ok m' → (i < n)%nat →
  ∃ x, vec i = Ok x ∧ m' !! (key +:+ fmt_d (Z.of_nat i)) = Some x.
Proof. intros Hrun Hi. apply (foldM_dims_eq _ _ _ _ _ _ _ Hrun). lia. Qed.

Lemma emit_dims_raise key vec n (m1 m2 : FeatureMap) e :
  emit_dims key vec n m1 = Raise e → emit_dims key vec n m2 = Raise e.
Proof. apply foldM_dims_raise. Qed.

Section properties.
Context `{Collaborators}.
Implicit Types (self : Featurizer) (fsa : FSA) (m : FeatureMap).

(** ** C4 *)

(** C4. An Upgrade rule, left-hand side a span labelled "X" and right-hand side
    a single span of a nonterminal, is mapped to exactly
    [{"type:upgrade_t": 1.0}] when the right-hand span is labelled "T", to
    exactly [{"type:upgrade_d": 1.0}] when it is labelled "D", and to the empty
    map for every other label; the two keys never appear together. *)
Theorem upgrade_rule_features self fsa sym i j ls le :
  is_terminal sym = false →
  _featurize_edge self
    {| lhs := Span (Nonterminal "X") ls le; rhs := [Span sym i j] |} fsa
  = Ok (if decide (sym = Nonterminal "T") then {["type:upgrade_t" := f1]}
        else if decide (sym = Nonterminal "D") then {["type:upgrade_d" := f1]}
        else ∅).
Proof.
  intros Hnt. unfold _featurize_edge. simpl. rewrite Hnt. simpl.
  rewrite ?py_eq_sym_true. simpl.
  unfold _featurize_upgrade_rule. simpl.
  rewrite ?py_eq_sym_true, !py_eq_sym.
  destruct (decide (sym = Nonterminal "T")) as [->|HT].
  - reflexivity.
  - rewrite (bool_decide_eq_false_2 _ HT).
    destruct (decide (sym = Nonterminal "D")) as [->|HD]; [reflexivity|].
    by rewrite (bool_decide_eq_false_2 _ HD).
Qed.

(** ** C5 *)

(** C5. For a Binary rule whose left-hand side is a span labelled "X", the
    returned map holds [binary:inverted = 1.0] exactly when the start of the
    left-hand span equals the start of the second right-hand span, and
    [binary:monotone = 1.0] otherwise; the other of the two keys is absent. *)
Theorem binary_orientation self fsa ls le r1 s2 i2 j2 m :
  _featurize_edge self
    {| lhs := Span (Nonterminal "X") ls le; rhs := [r1; Span s2 i2 j2] |} fsa
  = Ok m →
  if decide (ls = i2)
  then m !! "binary:inverted" = Some f1 ∧ m !! "binary:monotone" = None
  else m !! "binary:inverted" = None ∧ m !! "binary:monotone" = Some f1.
Proof.
  unfold _featurize_edge. simpl. unfold _featurize_binary_rule. simpl.
  intros Hrun.
  bind_inv Hrun. destruct (decide _) in Hrun; [|done].
  bind_inv Hrun. injection Hrun as <-.
  (* the span length, the skip-grams and the phrase vectors leave the two
     orientation keys alone *)
  rewrite !lookup_iadd_ne by key_ne.
  destruct (word_class_features self);
    rewrite !lookup_skip_grams_ne by key_ne.
  all: match goal with
       | Hout : (if decide _ then _ else _) = Ok _ |- _ =>
           destruct (decide _) in Hout;
           [bind_inv Hout|]; injection Hout as <-
       end.
  all: rewrite !lookup_emit_enumerate_ne by key_ne.
  (* the orientation test itself *)
  all: unfold py_eq; destruct (decide (ls = i2)) as [->|Hne];
    [ rewrite bool_decide_eq_true_2 by done
    | rewrite bool_decide_eq_false_2 by congruence ].
  all: by lookup_iadd.
Qed.

(** ** C3 *)

(** C3, amended. A unary rule with a nonterminal right-hand item is mapped to
    exactly [{"top": 1.0}] when its left-hand side is a span whose symbol is
    not the nonterminal "X"; when the left-hand side is a bare nonterminal, the
    bare start symbol, the returned map is empty. *)
Theorem start_rule_features self fsa r0 :
  is_terminal r0 = false →
  (∀ sym i j, sym ≠ Nonterminal "X" →
     _featurize_edge self {| lhs := Span sym i j; rhs := [r0] |} fsa
     = Ok {["top" := f1]})
  ∧ (∀ l, l ≠ "" →
     _featurize_edge self {| lhs := Nonterminal l; rhs := [r0] |} fsa = Ok ∅).
Proof.
  intros Hnt. split.
  - intros sym i j Hsym. unfold _featurize_edge. simpl. rewrite Hnt. simpl.
    rewrite py_eq_sym, bool_decide_eq_false_2 by done. reflexivity.
  - intros l Hl. unfold _featurize_edge. simpl. rewrite Hnt.
    destruct l as [|c l]; [done|]. reflexivity.
Qed.

(** ** C7 *)

(** Summing the vectors of a phrase succeeds on a well-formed table. *)
Lemma phrase_repr_Ok e phrase :
  emb_wf e → ∃ v, phrase_repr e phrase = Ok v ∧ length v = dim e.
Proof.
  intros Hwf. unfold phrase_repr.
  assert (length (np_zeros (dim e)) = dim e) as Hlen
    by apply length_replicate.
  revert Hlen. generalize (np_zeros (dim e)).
  induction phrase as [|w phrase IH]; intros acc Hacc; simpl; [eauto|].
  unfold np_iadd. rewrite decide_True by (by rewrite Hwf, Hacc). simpl.
  apply IH. rewrite length_zip_with, Hwf, Hacc. lia.
Qed.

(** C7. A Binary rule with left-hand side "X" whose inside phrase is empty
    makes the featurization raise the assertion failure; when the inside phrase
    is not empty the assertion passes and the featurization returns a feature
    map, the embedding table being well formed and the span query answering
    on the two outside spans and the two right-hand spans. *)
Theorem binary_inside_phrase_assertion self fsa ls le s1 i1 j1 s2 i2 j2 inside :
  get_phrase fsa (VInt ls) (VInt le) = Ok inside →
  let edge := {| lhs := Span (Nonterminal "X") ls le;
                 rhs := [Span s1 i1 j1; Span s2 i2 j2] |} in
  (inside = [] → _featurize_edge self edge fsa = Raise AssertionError)
  ∧ (inside ≠ [] →
     emb_wf (embeddings_ch self) →
     resolves fsa 0 ls → resolves fsa le (nb_states fsa) →
     resolves fsa i1 j1 → resolves fsa i2 j2 →
     is_Ok (_featurize_edge self edge fsa)).
Proof.
  intros Hinside edge. subst edge.
  unfold _featurize_edge. simpl. unfold _featurize_binary_rule. simpl.
  rewrite Hinside. simpl. split.
  - intros ->. reflexivity.
  - intros Hne Hwf [before Hbefore] [after Hafter] [rhs_1 Hrhs_1] [rhs_2 Hrhs_2].
    rewrite decide_True by (destruct inside; [done|simpl; lia]).
    destruct (phrase_repr_Ok _ inside Hwf) as (v & -> & _). simpl.
    rewrite Hbefore. simpl. rewrite Hafter. simpl. rewrite Hrhs_1, Hrhs_2.
    destruct (decide (0 < length (before ++ after))%nat).
    + destruct (phrase_repr_Ok _ (before ++ after) Hwf) as (w & -> & _).
      simpl. by eexists.
    + simpl. by eexists.
Qed.

(** ** C8 *)

(** C8. Two batches that agree on the forests, the best derivations and the
    source sentences of their tuples, and differ at most in the target
    sentences, yield the same result: the same container, or the same
    exception. *)
Theorem batch_ignores_target self batch1 batch2 :
  without_target <$> batch1 = without_target <$> batch2 →
  featurize_parse_trees_batch self batch1 = featurize_parse_trees_batch self batch2.
Proof.
  unfold featurize_parse_trees_batch. generalize Features_new.
  revert batch2. induction batch1 as [|t1 batch1 IH];
    intros [|t2 batch2] features Heq; try done.
  injection Heq as Ht Heq.
  destruct t1 as [[[Dx1 Dxy1] source1] target1].
  destruct t2 as [[[Dx2 Dxy2] source2] target2].
  injection Ht as -> -> ->. simpl.
  destruct (foldM _ features Dx2) as [features'|e]; simpl; [|done].
  destruct (last_rule Dxy2) as [r|e]; simpl; [|done].
  destruct (add_edge self (make_fsa source2) features' r) as [features''|e];
    simpl; [|done].
  by apply IH.
Qed.

(** ** C10 *)

Lemma last_rule_Ok Dxy r :
  last_rule Dxy = Ok r → ∃ d, Dxy = Some d ∧ _rules d ≠ [].
Proof.
  destruct Dxy as [d|]; [|done]. simpl. intros Hlast.
  exists d. split; [done|]. by destruct (_rules d).
Qed.

Lemma forest_loop_Ok self fsa : ∀ Dx fmaps features,
  Forall2 (λ edge fmap, _featurize_edge self edge fsa = Ok fmap) Dx fmaps →
  foldM (add_edge self fsa) features Dx
  = Ok (foldl (λ features p, Features_add features p.1 p.2) features (zip Dx fmaps)).
Proof.
  induction Dx as [|edge Dx IH]; intros fmaps features Hall.
  - by inversion Hall.
  - inversion Hall as [|? fmap ? fmaps' Hedge Hrest]; subst.
    cbn [foldM zip zip_with foldl]. unfold add_edge. rewrite Hedge.
    simpl. exact (IH _ _ Hrest).
Qed.

Lemma batch_loop_Ok self : ∀ batch features features',
  foldM (λ features '(Dx, Dxy, source, target),
    let src_fsa := make_fsa source in
    features ← foldM (add_edge self src_fsa) features Dx;
    r ← last_rule Dxy;
    add_edge self src_fsa features r) features batch = Ok features' →
  Forall carries_last_rule batch.
Proof.
  induction batch as [|[[[Dx Dxy] source] target] batch IH];
    intros features features' Hrun; [constructor|].
  simpl in Hrun. apply bind_Ok_inv in Hrun as (features1 & Hstep & Hrun).
  apply bind_Ok_inv in Hstep as (features2 & _ & Hstep).
  apply bind_Ok_inv in Hstep as (r & Hlast & _).
  constructor; [|by eapply IH]. simpl. by eapply last_rule_Ok.
Qed.

(** C10. [featurize_parse_trees] accepts [None] as best derivation: when the
    edges of the forest featurize, it returns the container that holds the
    entries of the forest's edges and nothing else.  [featurize_parse_trees_batch]
    returns only when every tuple carries a derivation with at least one
    rule; a tuple whose derivation is [None] makes it raise. *)
Theorem best_derivation_optional_only_outside_batch self :
  (∀ Dx x fmaps,
     Forall2 (λ edge fmap, _featurize_edge self edge (make_fsa x) = Ok fmap)
             Dx fmaps →
     featurize_parse_trees self Dx None x
     = Ok (foldl (λ features p, Features_add features p.1 p.2)
                 Features_new (zip Dx fmaps)))
  ∧ (∀ batch features,
     featurize_parse_trees_batch self batch = Ok features →
     Forall carries_last_rule batch)
  ∧ (∀ batch Dx source target,
     (Dx, None, source, target) ∈ batch →
     ∃ e, featurize_parse_trees_batch self batch = Raise e).
Proof.
  split; [|split].
  - intros Dx x fmaps Hall. unfold featurize_parse_trees. simpl.
    by rewrite (forest_loop_Ok _ _ _ _ _ Hall).
  - intros batch features. apply batch_loop_Ok.
  - intros batch Dx source target Hin.
    destruct (featurize_parse_trees_batch self batch) as [features|e] eqn:Hrun;
      [|by eexists].
    apply batch_loop_Ok in Hrun. rewrite Forall_forall in Hrun.
    destruct (Hrun _ Hin) as (d & Hd & _). done.
Qed.

(** ** C6 *)

(** C6. For a Translation rule, a terminal right-hand side under a left-hand
    span labelled "T", with [p_fwd = P(src, tgt)] and [p_bwd = P(tgt, src)]
    read from the alignment table, the returned map holds
    [ibm1:x2y:logprob = log(p_fwd + 1e-10)],
    [ibm1:y2x:logprob = log(p_bwd + 1e-10)] and
    [ibm1:geometric:log = log(sqrt(p_fwd * p_bwd + 1e-10) + 1e-10)], all in
    binary64 arithmetic.  Each score is added to the default [0.0] of its key,
    which is exact as long as the logarithm is not the negative zero. *)
Theorem translation_alignment_scores self fsa i j r0 sym a b src tgt m :
  is_terminal r0 = true →
  unpack3 (obj r0) = Ok (sym, a, b) →
  get_source_word fsa (VInt i) (VInt j) = Ok src →
  get_target_word sym = Ok tgt →
  let p_fwd := ibm1_probs self (src, tgt) in
  let p_bwd := ibm1_probs self (tgt, src) in
  np_log (p_fwd + eps)%float ≠ neg_zero →
  np_log (p_bwd + eps)%float ≠ neg_zero →
  np_log (PrimFloat.sqrt (p_fwd * p_bwd + eps) + eps)%float ≠ neg_zero →
  _featurize_edge self {| lhs := Span (Nonterminal "T") i j; rhs := [r0] |} fsa
  = Ok m →
  m !! "ibm1:x2y:logprob" = Some (np_log (p_fwd + eps)%float)
  ∧ m !! "ibm1:y2x:logprob" = Some (np_log (p_bwd + eps)%float)
  ∧ m !! "ibm1:geometric:log"
    = Some (np_log (PrimFloat.sqrt (p_fwd * p_bwd + eps) + eps)%float).
Proof.
  intros Hterm Hunpack Hsrc Htgt p_fwd p_bwd Hfwd Hbwd Hgeo.
  unfold _featurize_edge. simpl. rewrite Hterm.
  unfold _featurize_terminal_rule. simpl. rewrite Hunpack. simpl.
  rewrite Hsrc. simpl. rewrite Htgt. simpl.
  fold p_fwd p_bwd. intros Hrun.
  assert (∀ k, k = "ibm1:x2y:logprob" ∨ k = "ibm1:y2x:logprob"
               ∨ k = "ibm1:geometric:log" →
    ∃ m', m !! k = m' !! k ∧
      (m' = iadd "ibm1:geometric:log"
              (np_log (PrimFloat.sqrt (p_fwd * p_bwd + eps) + eps)%float)
              (iadd "ibm1:y2x:logprob" (np_log (p_bwd + eps)%float)
              (iadd "ibm1:x2y:logprob" (np_log (p_fwd + eps)%float)
              (iadd "target-len" f1
              (iadd "type:translation" f1 (iadd "type:terminal" f1 ∅))))))) as Hm.
  { intros k Hk. eexists. split; [|reflexivity].
    destruct (dense_word_emb_features self).
    - rewrite (emit_dims_lookup_ne _ _ _ _ _ k Hrun)
        by (destruct Hk as [-> | [-> | ->]]; key_ne).
      destruct (word_class_features self), (sparse_word_features self);
        simpl; destruct Hk as [-> | [-> | ->]];
        by rewrite ?lookup_iadd_ne by key_ne.
    - injection Hrun as <-.
      destruct (word_class_features self), (sparse_word_features self);
        simpl; destruct Hk as [-> | [-> | ->]];
        by rewrite ?lookup_iadd_ne by key_ne. }
  repeat split.
  - destruct (Hm "ibm1:x2y:logprob") as (m' & -> & ->); [auto|].
    lookup_iadd. simpl. by rewrite float_zero_add.
  - destruct (Hm "ibm1:y2x:logprob") as (m' & -> & ->); [auto|].
    lookup_iadd. simpl. by rewrite float_zero_add.
  - destruct (Hm "ibm1:geometric:log") as (m' & -> & ->); [auto|].
    lookup_iadd. simpl. by rewrite float_zero_add.
Qed.

(** ** C1 *)

(** C1, as the code has it. For an Insertion rule featurized with the sparse
    word and the word class features enabled, the key [ins:class:<c>] of the
    target word's cluster is only read, never incremented: it holds the
    default [0.0], unless the sparse feature [ins:<word>] of a word spelled
    [class:<c>] is that very key. *)
Theorem insertion_class_feature self fsa ls le r0 sym a b tgt m :
  is_terminal r0 = true →
  unpack3 (obj r0) = Ok (sym, a, b) →
  get_target_word sym = Ok tgt →
  sparse_word_features self = true →
  word_class_features self = true →
  _featurize_edge self {| lhs := Span (Nonterminal "I") ls le; rhs := [r0] |} fsa
  = Ok m →
  let c := get_cluster_id (embeddings_en self) tgt in
  m !! ("ins:class:" +:+ fmt_d c)
  = Some (if decide (tgt = "class:" +:+ fmt_d c) then f1 else f0).
Proof.
  intros Hterm Hunpack Htgt Hsparse Hclass.
  unfold _featurize_edge. simpl. rewrite Hterm.
  unfold _featurize_terminal_rule. simpl. rewrite Hunpack. simpl.
  rewrite Htgt. simpl. rewrite Hsparse, Hclass. simpl.
  intros Hrun. set (c := get_cluster_id (embeddings_en self) tgt) in *.
  assert (m !! ("ins:class:" +:+ fmt_d c)
          = touch ("ins:class:" +:+ fmt_d c)
              (iadd ("ins:" +:+ tgt) f1
                 (iadd "ibm1:ins:logprob"
                    (np_log (ibm1_probs self ("-EPS-", tgt) + eps)%float)
                    (iadd "target-len" f1
                       (iadd "type:insertion" f1 (iadd "type:terminal" f1 ∅)))))
            !! ("ins:class:" +:+ fmt_d c)) as ->.
  { destruct (dense_word_emb_features self).
    - by rewrite (emit_dims_lookup_ne _ _ _ _ _ _ Hrun) by key_ne.
    - by injection Hrun as <-. }
  rewrite lookup_touch_eq. f_equal.
  destruct (decide (tgt = "class:" +:+ fmt_d c)) as [Heq|Hne].
  - change ("ins:class:" +:+ fmt_d c) with ("ins:" +:+ ("class:" +:+ fmt_d c)).
    rewrite <- Heq. rewrite lookup_iadd_eq.
    rewrite !lookup_iadd_ne by key_ne. reflexivity.
  - rewrite lookup_iadd_ne.
    + by rewrite !lookup_iadd_ne by key_ne.
    + change ("ins:class:" +:+ fmt_d c) with ("ins:" +:+ ("class:" +:+ fmt_d c)).
      intros Heq. by apply (inj (String.app "ins:")) in Heq.
Qed.

(** ** C9 *)

(** The dense features of an Insertion rule, key by key: the loop bound is the
    dimension of the source-side table, the vector read is the target word's. *)
Lemma insertion_dense_key self fsa ls le r0 sym a b tgt m (i : nat) :
  is_terminal r0 = true →
  unpack3 (obj r0) = Ok (sym, a, b) →
  get_target_word sym = Ok tgt →
  dense_word_emb_features self = true →
  _featurize_edge self {| lhs := Span (Nonterminal "I") ls le; rhs := [r0] |} fsa
  = Ok m →
  ((i < dim (embeddings_ch self))%nat →
   ∃ x, get (embeddings_en self) tgt !! i = Some x
        ∧ m !! ("ins:emb:dim-" +:+ fmt_d (Z.of_nat i)) = Some x)
  ∧ ((dim (embeddings_ch self) ≤ i)%nat →
     tgt ≠ "emb:dim-" +:+ fmt_d (Z.of_nat i) →
     m !! ("ins:emb:dim-" +:+ fmt_d (Z.of_nat i)) = None).
Proof.
  intros Hterm Hunpack Htgt Hdense.
  unfold _featurize_edge. simpl. rewrite Hterm.
  unfold _featurize_terminal_rule. simpl. rewrite Hunpack. simpl.
  rewrite Htgt. simpl. rewrite Hdense.
  intros Hrun. split.
  - intros Hi.
    destruct (emit_dims_lookup _ _ _ _ _ i Hrun Hi) as (x & Hx & ->).
    unfold getitem in Hx.
    destruct (get (embeddings_en self) tgt !! i) as [y|]; [|done].
    injection Hx as ->. eauto.
  - intros Hi Hword.
    rewrite (emit_dims_lookup_ne _ _ _ _ _ _ Hrun).
    2:{ intros i' Hi' Heq. apply dim_key_inj in Heq. lia. }
    assert ("ins:" +:+ tgt ≠ "ins:emb:dim-" +:+ fmt_d (Z.of_nat i)) as Hne.
    { change ("ins:emb:dim-" +:+ fmt_d (Z.of_nat i))
        with ("ins:" +:+ ("emb:dim-" +:+ fmt_d (Z.of_nat i))).
      intros Heq. by apply (inj (String.app "ins:")) in Heq. }
    destruct (word_class_features self), (sparse_word_features self); simpl;
      rewrite ?lookup_touch_ne by key_ne;
      rewrite ?(lookup_iadd_ne _ _ _ _ Hne);
      by rewrite !lookup_iadd_ne by key_ne.
Qed.

(** C9, as the code has it. For an Insertion rule featurized with the dense
    embedding features enabled, the loop runs over the dimensions of the
    source-side table: [ins:emb:dim-<i>] holds the [i]-th component of the
    target word's vector for every [i] below the source-side dimension, and
    is absent for every other [i] (unless the sparse feature [ins:<word>] of
    a word spelled [emb:dim-<i>] is that very key). *)
Theorem insertion_dense_features self fsa ls le r0 sym a b tgt m :
  is_terminal r0 = true →
  unpack3 (obj r0) = Ok (sym, a, b) →
  get_target_word sym = Ok tgt →
  dense_word_emb_features self = true →
  _featurize_edge self {| lhs := Span (Nonterminal "I") ls le; rhs := [r0] |} fsa
  = Ok m →
  ∀ i : nat,
    if decide (i < dim (embeddings_ch self))%nat
    then m !! ("ins:emb:dim-" +:+ fmt_d (Z.of_nat i))
         = Some (default f0 (get (embeddings_en self) tgt !! i))
         ∧ is_Some (get (embeddings_en self) tgt !! i)
    else tgt ≠ "emb:dim-" +:+ fmt_d (Z.of_nat i) →
         m !! ("ins:emb:dim-" +:+ fmt_d (Z.of_nat i)) = None.
Proof.
  intros Hterm Hunpack Htgt Hdense Hrun i.
  destruct (insertion_dense_key self fsa ls le r0 sym a b tgt m i
              Hterm Hunpack Htgt Hdense Hrun) as [Hlt Hge].
  destruct (decide (i < dim (embeddings_ch self))%nat) as [Hi|Hi].
  - destruct (Hlt Hi) as (x & -> & ->). eauto.
  - apply Hge. lia.
Qed.

(** X1. When the two tables have the same dimension and the target-side table is
    well formed, the Insertion rule emits one key per dimension of the
    target-side table, holding that component of the target word's vector,
    and no key for any other index. *)
Theorem insertion_dense_features_equal_dims self fsa ls le r0 sym a b tgt m :
  is_terminal r0 = true →
  unpack3 (obj r0) = Ok (sym, a, b) →
  get_target_word sym = Ok tgt →
  dense_word_emb_features self = true →
  dim (embeddings_ch self) = dim (embeddings_en self) →
  emb_wf (embeddings_en self) →
  (∀ i : nat, tgt ≠ "emb:dim-" +:+ fmt_d (Z.of_nat i)) →
  _featurize_edge self {| lhs := Span (Nonterminal "I") ls le; rhs := [r0] |} fsa
  = Ok m →
  ∀ i : nat,
    m !! ("ins:emb:dim-" +:+ fmt_d (Z.of_nat i)) = get (embeddings_en self) tgt !! i.
Proof.
  intros Hterm Hunpack Htgt Hdense Hdim Hwf Hword Hrun i.
  destruct (insertion_dense_key self fsa ls le r0 sym a b tgt m i
              Hterm Hunpack Htgt Hdense Hrun) as [Hlt Hge].
  destruct (decide (i < dim (embeddings_ch self))%nat) as [Hi|Hi].
  - destruct (Hlt Hi) as (x & -> & ->). done.
  - rewrite Hge by (done || lia). symmetry. apply lookup_ge_None_2.
    rewrite Hwf. lia.
Qed.

(** X2. The sibling of C1: for a Deletion rule featurized with the sparse word and
    the word class features enabled, the key [del:class:<c>] of the source
    word's cluster is incremented by [1.0]; it holds [1.0], or [2.0] when the
    sparse feature [del:<word>] of a word spelled [class:<c>] is that very
    key. *)
Theorem deletion_class_feature self fsa ls le r0 sym a b src m :
  is_terminal r0 = true →
  unpack3 (obj r0) = Ok (sym, a, b) →
  get_source_word fsa (VInt ls) (VInt le) = Ok src →
  sparse_word_features self = true →
  word_class_features self = true →
  _featurize_edge self {| lhs := Span (Nonterminal "D") ls le; rhs := [r0] |} fsa
  = Ok m →
  let c := get_cluster_id (embeddings_ch self) src in
  m !! ("del:class:" +:+ fmt_d c)
  = Some (if decide (src = "class:" +:+ fmt_d c) then 2%float else f1).
Proof.
  intros Hterm Hunpack Hsrc Hsparse Hclass.
  unfold _featurize_edge. simpl. rewrite Hterm.
  unfold _featurize_terminal_rule. simpl. rewrite Hunpack. simpl.
  rewrite Hsrc. simpl. rewrite Hsparse, Hclass. simpl.
  intros Hrun. set (c := get_cluster_id (embeddings_ch self) src) in *.
  assert (m !! ("del:class:" +:+ fmt_d c)
          = iadd ("del:class:" +:+ fmt_d c) f1
              (iadd ("del:" +:+ src) f1
                 (iadd "ibm1:del:logprob"
                    (np_log (ibm1_probs self (src, "-EPS-") + eps)%float)
                    (iadd "type:deletion" f1 (iadd "type:terminal" f1 ∅))))
            !! ("del:class:" +:+ fmt_d c)) as ->.
  { destruct (dense_word_emb_features self).
    - by rewrite (emit_dims_lookup_ne _ _ _ _ _ _ Hrun) by key_ne.
    - by injection Hrun as <-. }
  rewrite lookup_iadd_eq. f_equal.
  destruct (decide (src = "class:" +:+ fmt_d c)) as [Heq|Hne].
  - change ("del:class:" +:+ fmt_d c) with ("del:" +:+ ("class:" +:+ fmt_d c)).
    rewrite <- Heq. rewrite lookup_iadd_eq.
    rewrite !lookup_iadd_ne by key_ne. reflexivity.
  - rewrite lookup_iadd_ne.
    + rewrite !lookup_iadd_ne by key_ne. reflexivity.
    + change ("del:class:" +:+ fmt_d c) with ("del:" +:+ ("class:" +:+ fmt_d c)).
      intros Heq. by apply (inj (String.app "del:")) in Heq.
Qed.

(** ** C2 *)

(** An outcome without lexical names agrees with itself. *)
Lemma sparse_off_agrees_same self (r : result FeatureMap) :
  (∀ m k, r = Ok m → lexical k = true → m !! k = None) →
  sparse_off_agrees self r r.
Proof.
  intros Hr. destruct r as [m|e]; [|done].
  intros k. split; [|done]. intros Hk _. by apply Hr.
Qed.

(** The dense embedding features, the last step of the three kinds of terminal
    rules: [G] is the map with the features gated by [sparse_word_features],
    [base] the map without them. *)
Lemma dense_tail_agrees self pfx vec (G base : FeatureMap) :
  pfx ∈ ["del:"; "ins:"; "trans:"] →
  (∀ k, starts_with pfx k = false → G !! k = base !! k) →
  (∀ k, lexical k = true → base !! k = None) →
  sparse_off_agrees self
    (if dense_word_emb_features self
     then emit_dims (pfx +:+ "emb:dim-") vec (dim (embeddings_ch self)) G
     else Ok G)
    (if dense_word_emb_features self
     then emit_dims (pfx +:+ "emb:dim-") vec (dim (embeddings_ch self)) base
     else Ok base).
Proof.
  intros Hpfx HG Hbase.
  assert (∀ k, lexical k = false → starts_with pfx k = false) as Hlex.
  { intros k Hk. apply lexical_false in Hk as (? & ? & ?).
    repeat (apply elem_of_cons in Hpfx as [-> | Hpfx]; [done|]).
    by apply elem_of_nil in Hpfx. }
  unfold sparse_off_agrees, dense_key.
  destruct (dense_word_emb_features self).
  - destruct (emit_dims _ vec _ G) as [m_on|e] eqn:Hon.
    + destruct (emit_dims _ vec _ base) as [m_off|e] eqn:Hoff.
      2:{ apply (emit_dims_raise _ _ _ _ G) in Hoff. congruence. }
      intros k. split.
      * intros Hk Hdense.
        rewrite (emit_dims_lookup_ne _ _ _ _ _ _ Hoff); [by apply Hbase|].
        intros i Hi ->. apply Hdense. split; [done|]. exists i. split; [done|].
        repeat (apply elem_of_cons in Hpfx as [-> | Hpfx]; [auto|]).
        by apply elem_of_nil in Hpfx.
      * intros [Hk | (_ & i & Hi & Hki)].
        -- rewrite (emit_dims_lookup_ne _ _ _ _ _ _ Hoff),
             (emit_dims_lookup_ne _ _ _ _ _ _ Hon).
           ++ symmetry. by apply HG, Hlex.
           ++ intros i _ ->. apply Hlex in Hk.
              by rewrite string_app_assoc, starts_with_app in Hk.
           ++ intros i _ ->. apply Hlex in Hk.
              by rewrite string_app_assoc, starts_with_app in Hk.
        -- destruct (decide (k = (pfx +:+ "emb:dim-") +:+ fmt_d (Z.of_nat i)))
             as [-> | Hne].
           ++ destruct (emit_dims_lookup _ _ _ _ _ i Hon Hi) as (x & Hx & ->).
              destruct (emit_dims_lookup _ _ _ _ _ i Hoff Hi) as (y & Hy & ->).
              congruence.
           ++ assert (starts_with pfx k = false
                      ∧ ∀ i', k ≠ (pfx +:+ "emb:dim-") +:+ fmt_d (Z.of_nat i'))
                as [Hk Hki'].
              { repeat (apply elem_of_cons in Hpfx as [-> | Hpfx];
                  [destruct Hki as [-> | [-> | ->]]; try done;
                   (split; [reflexivity|key_ne])|]).
                by apply elem_of_nil in Hpfx. }
              rewrite (emit_dims_lookup_ne _ _ _ _ _ _ Hoff),
                (emit_dims_lookup_ne _ _ _ _ _ _ Hon) by auto.
              symmetry. by apply HG.
    + by rewrite (emit_dims_raise _ _ _ _ base _ Hon).
  - intros k. split; [by auto|].
    intros [Hk | [? _]]; [|done]. symmetry. by apply HG, Hlex.
Qed.

(** A binary rule writes no lexical name. *)
Lemma binary_rule_lexical_none self rule fsa m k :
  _featurize_binary_rule self rule fsa ∅ = Ok m →
  lexical k = true → m !! k = None.
Proof.
  unfold _featurize_binary_rule. intros Hrun Hk.
  bind_inv Hrun.
  destruct (py_eq v (VSym (Nonterminal "D"))).
  { injection Hrun as <-. by rewrite !lookup_iadd_ne by key_ne_by Hk. }
  destruct (py_eq v (VSym (Nonterminal "X"))).
  2:{ injection Hrun as <-. by rewrite !lookup_iadd_ne by key_ne_by Hk. }
  bind_inv Hrun. destruct (decide _) in Hrun; [|done].
  bind_inv Hrun. injection Hrun as <-.
  rewrite lookup_iadd_ne by key_ne_by Hk.
  destruct (word_class_features self);
    rewrite !lookup_skip_grams_ne by key_ne_by Hk.
  all: match goal with
       | Hout : (if decide _ then _ else _) = Ok _ |- _ =>
           destruct (decide _) in Hout;
           [bind_inv Hout|]; injection Hout as <-
       end.
  all: rewrite !lookup_emit_enumerate_ne by key_ne_by Hk.
  all: destruct (py_eq _ _); by rewrite !lookup_iadd_ne by key_ne_by Hk.
Qed.

(** The three kinds of terminal rules, with and without the sparse features. *)
Lemma terminal_rule_agrees self rule fsa :
  sparse_off_agrees self
    (_featurize_terminal_rule (with_sparse_word_features true self) rule fsa ∅)
    (_featurize_terminal_rule (with_sparse_word_features false self) rule fsa ∅).
Proof.
  unfold _featurize_terminal_rule. simpl.
  destruct (unpack3 (obj (lhs rule))) as [[[lhs_symbol lhs_start] lhs_end]|e];
    [simpl|done].
  destruct (getitem (rhs rule) 0) as [r0|e]; [simpl|done].
  destruct (unpack3 (obj r0)) as [[[rhs_symbol rhs_start] rhs_end]|e];
    [simpl|done].
  rewrite !andb_true_r, !andb_false_r.
  destruct (py_eq lhs_symbol (VSym (Nonterminal "D"))).
  { destruct (get_source_word fsa lhs_start lhs_end) as [src_word|e];
      [simpl|done].
    apply (dense_tail_agrees self "del:"); [set_solver| |].
    - intros k Hk. destruct (word_class_features self);
        by rewrite !lookup_iadd_ne by key_ne_by Hk.
    - intros k Hk. by rewrite !lookup_iadd_ne by key_ne_by Hk. }
  destruct (py_eq lhs_symbol (VSym (Nonterminal "I"))).
  { destruct (get_target_word rhs_symbol) as [tgt_word|e]; [simpl|done].
    apply (dense_tail_agrees self "ins:"); [set_solver| |].
    - intros k Hk. destruct (word_class_features self);
        rewrite ?lookup_touch_ne by key_ne_by Hk;
        by rewrite !lookup_iadd_ne by key_ne_by Hk.
    - intros k Hk. by rewrite !lookup_iadd_ne by key_ne_by Hk. }
  destruct (py_eq lhs_symbol (VSym (Nonterminal "T"))).
  { destruct (get_source_word fsa lhs_start lhs_end) as [src_word|e];
      [simpl|done].
    destruct (get_target_word rhs_symbol) as [tgt_word|e]; [simpl|done].
    apply (dense_tail_agrees self "trans:"); [set_solver| |].
    - intros k Hk. destruct (word_class_features self);
        by rewrite !lookup_iadd_ne by key_ne_by Hk.
    - intros k Hk. by rewrite !lookup_iadd_ne by key_ne_by Hk. }
  apply sparse_off_agrees_same. intros m k [= <-] Hk.
  by rewrite !lookup_iadd_ne by key_ne_by Hk.
Qed.

(** C2, amended. For every rule, the featurizer constructed with
    [sparse_word_features] disabled, all other options unchanged, has the same
    outcome as the enabled one: the same exception, or a feature map.  The map
    of the disabled featurizer has no name with a prefix [del:], [ins:] or
    [trans:] except the [<prefix>emb:dim-<i>] names that the dense embedding
    features emit; so the [:class:] names, written only when
    [word_class_features] and [sparse_word_features] are both enabled, are
    absent too.  The emitted [:emb:dim-<i>] names and all names without these
    prefixes keep the value they have in the enabled map. *)
Theorem sparse_word_features_disabled self edge fsa :
  match _featurize_edge (with_sparse_word_features true self) edge fsa,
        _featurize_edge (with_sparse_word_features false self) edge fsa with
  | Ok m_on, Ok m_off =>
      ∀ k, (lexical k = true → ¬ dense_key self k → m_off !! k = None)
           ∧ (lexical k = false ∨ dense_key self k → m_off !! k = m_on !! k)
  | Raise e_on, Raise e_off => e_on = e_off
  | _, _ => False
  end.
Proof.
  change (sparse_off_agrees self
    (_featurize_edge (with_sparse_word_features true self) edge fsa)
    (_featurize_edge (with_sparse_word_features false self) edge fsa)).
  unfold _featurize_edge.
  destruct (decide (length (rhs edge) = 2%nat)).
  { change (_featurize_binary_rule (with_sparse_word_features true self))
      with (_featurize_binary_rule self).
    change (_featurize_binary_rule (with_sparse_word_features false self))
      with (_featurize_binary_rule self).
    apply sparse_off_agrees_same. intros m k. apply binary_rule_lexical_none. }
  destruct (getitem (rhs edge) 0) as [r0|e]; [simpl|done].
  destruct (is_terminal r0); [apply terminal_rule_agrees|].
  apply sparse_off_agrees_same. intros m k Hrun Hk.
  bind_inv Hrun. destruct (negb _).
  - destruct (negb _); injection Hrun as <-; [|done].
    by rewrite !lookup_iadd_ne by key_ne_by Hk.
  - unfold _featurize_upgrade_rule in Hrun. bind_inv Hrun.
    repeat (destruct (py_eq _ _) in Hrun);
      injection Hrun as <-; by rewrite ?lookup_iadd_ne by key_ne_by Hk.
Qed.

End properties.

(** * The theorems at concrete inputs *)

Section examples.
Import Demo.

Lemma vec2_wf : emb_wf (emb 2 vec2 cluster).
Proof. intros w. unfold vec2. simpl. by repeat case_decide. Defined.

Lemma phrase_resolves fsa a b : resolves fsa a b.
Proof. by eexists. Defined.

(** C4 at the rule [X:0-1 -> T:0-1]. *)
Lemma upgrade_rule_features_witness :
  is_terminal (Nonterminal "T") = false
  ∧ _featurize_edge (featurizer true true true) upgrade_rule (make_fsa sentence)
    = Ok {["type:upgrade_t" := f1]}.
Proof.
  split; [reflexivity|].
  exact (upgrade_rule_features (featurizer true true true) (make_fsa sentence)
           (Nonterminal "T") 0 1 0 1 eq_refl).
Defined.

(** C5 at the rules [X:0-2 -> X:1-2 X:0-1] and [X:0-2 -> X:0-1 X:1-2]. *)
Lemma binary_orientation_witness :
  (∃ m, _featurize_edge (featurizer true true true) inverted_rule (make_fsa sentence)
        = Ok m
        ∧ m !! "binary:inverted" = Some f1 ∧ m !! "binary:monotone" = None)
  ∧ (∃ m, _featurize_edge (featurizer true true true) monotone_rule (make_fsa sentence)
          = Ok m
          ∧ m !! "binary:inverted" = None ∧ m !! "binary:monotone" = Some f1).
Proof.
  split.
  - eexists. split; [reflexivity|].
    exact (binary_orientation (featurizer true true true) (make_fsa sentence)
             0 2 (X 1 2) (Nonterminal "X") 0 1 _ eq_refl).
  - eexists. split; [reflexivity|].
    exact (binary_orientation (featurizer true true true) (make_fsa sentence)
             0 2 (X 0 1) (Nonterminal "X") 1 2 _ eq_refl).
Defined.

(** C3, as stated, at the rule [S -> X:0-2] whose left-hand side is the bare
    start symbol: the returned map has no key [top]. *)
Lemma start_rule_bare_symbol_counterexample :
  lhs goal_rule = Nonterminal "S"
  ∧ rhs goal_rule = [X 0 2]
  ∧ is_terminal (X 0 2) = false
  ∧ _featurize_edge (featurizer true true true) goal_rule (make_fsa sentence)
    = Ok ∅
  ∧ (∅ : FeatureMap) !! "top" = None.
Proof. repeat split. Qed.

(** C3, amended, at the rules [S:0-2 -> X:0-2] and [S -> X:0-2]. *)
Lemma start_rule_features_witness :
  is_terminal (X 0 2) = false
  ∧ _featurize_edge (featurizer true true true) start_span_rule (make_fsa sentence)
    = Ok {["top" := f1]}
  ∧ _featurize_edge (featurizer true true true) goal_rule (make_fsa sentence)
    = Ok ∅.
Proof.
  destruct (start_rule_features (featurizer true true true) (make_fsa sentence)
              (X 0 2) eq_refl) as [Hspan Hbare].
  split; [reflexivity|]. split.
  - apply Hspan. discriminate.
  - apply Hbare. discriminate.
Defined.

(** C7 at the rules [X:1-1 -> X:1-1 X:1-1], whose inside phrase is empty, and
    [X:0-2 -> X:0-1 X:1-2]. *)
Lemma binary_inside_phrase_assertion_witness :
  (get_phrase (make_fsa sentence) (VInt 1) (VInt 1) = Ok []
   ∧ _featurize_edge (featurizer true true true) empty_span_rule (make_fsa sentence)
     = Raise AssertionError)
  ∧ (get_phrase (make_fsa sentence) (VInt 0) (VInt 2) = Ok ["the"; "cat"]
     ∧ is_Ok (_featurize_edge (featurizer true true true) monotone_rule
                (make_fsa sentence))).
Proof.
  split; (split; [reflexivity|]).
  - apply (binary_inside_phrase_assertion (H := collaborators)
             (featurizer true true true)
             (make_fsa sentence) 1 1 (Nonterminal "X") 1 1 (Nonterminal "X") 1 1
             [] ltac:(reflexivity)).
    reflexivity.
  - apply (binary_inside_phrase_assertion (H := collaborators)
             (featurizer true true true)
             (make_fsa sentence) 0 2 (Nonterminal "X") 0 1 (Nonterminal "X") 1 2
             ["the"; "cat"] ltac:(reflexivity)).
    + discriminate.
    + apply vec2_wf.
    + apply phrase_resolves.
    + apply phrase_resolves.
    + apply phrase_resolves.
    + apply phrase_resolves.
Defined.

(** C8 at two batches of one tuple with different target sentences. *)
Lemma batch_ignores_target_witness :
  featurize_parse_trees_batch (featurizer true true true)
    [([translation_rule; deletion_rule], Some derivation, sentence, "le chat")]
  = featurize_parse_trees_batch (featurizer true true true)
    [([translation_rule; deletion_rule], Some derivation, sentence, "un chien")].
Proof.
  exact (batch_ignores_target (featurizer true true true)
           [([translation_rule; deletion_rule], Some derivation, sentence, "le chat")]
           [([translation_rule; deletion_rule], Some derivation, sentence, "un chien")]
           eq_refl).
Defined.

(** C10 at a forest of two rules: the single-tree call without a derivation,
    the batch call with one. *)
Lemma best_derivation_optional_witness :
  is_Ok (featurize_parse_trees (featurizer true true true)
           [translation_rule; deletion_rule] None sentence)
  ∧ carries_last_rule
      ([translation_rule; deletion_rule], Some derivation, sentence, "le chat")
  ∧ featurize_parse_trees_batch (featurizer true true true)
      [([translation_rule; deletion_rule], None, sentence, "le chat")]
    = Raise AttributeError.
Proof.
  destruct (best_derivation_optional_only_outside_batch (featurizer true true true))
    as (Hnone & Hbatch & Hraise).
  split; [|split].
  - eexists. apply Hnone. repeat constructor.
  - destruct (featurize_parse_trees_batch (featurizer true true true)
      [([translation_rule; deletion_rule], Some derivation, sentence, "le chat")])
      as [features|e] eqn:Hrun; [|discriminate Hrun].
    apply Hbatch in Hrun. by apply Forall_cons in Hrun as [? _].
  - reflexivity.
Defined.

Lemma log_series_not_neg_zero (x : float) :
  Prim2SF (log_series x) ≠ S754_zero true → log_series x ≠ neg_zero.
Proof. intros Hx Heq. apply Hx. by rewrite Heq. Defined.

(** C6 at the rule [T:0-1 -> 'le':0-1], with [P(the, le) = 0.75] and
    [P(le, the) = 0.5]. *)
Lemma translation_alignment_scores_witness :
  ibm1_probs (featurizer true true true) ("the", "le") = 0.75%float
  ∧ ibm1_probs (featurizer true true true) ("le", "the") = 0.5%float
  ∧ ∃ m, _featurize_edge (featurizer true true true) translation_rule
           (make_fsa sentence) = Ok m
         ∧ m !! "ibm1:x2y:logprob" = Some (np_log (0.75 + eps)%float)
         ∧ m !! "ibm1:y2x:logprob" = Some (np_log (0.5 + eps)%float)
         ∧ m !! "ibm1:geometric:log"
           = Some (np_log (PrimFloat.sqrt (0.75 * 0.5 + eps) + eps)%float).
Proof.
  split; [reflexivity|]. split; [reflexivity|].
  eexists. split; [reflexivity|].
  apply (translation_alignment_scores (H := collaborators)
           (featurizer true true true)
           (make_fsa sentence) 0 1 (word "le" 0 1) (VSym (Terminal "le"))
           (VInt 0) (VInt 1) "the" "le" _ ltac:(reflexivity) ltac:(reflexivity) ltac:(reflexivity) ltac:(reflexivity)).
  - apply log_series_not_neg_zero. vm_compute. discriminate.
  - apply log_series_not_neg_zero. vm_compute. discriminate.
  - apply log_series_not_neg_zero. vm_compute. discriminate.
  - reflexivity.
Defined.

(** C1 at the rule [I:0-0 -> 'le':0-0], the cluster of [le] being 3: the key
    [ins:class:3] holds [0.0]. *)
Lemma insertion_class_feature_witness :
  get_cluster_id (embeddings_en (featurizer true true true)) "le" = 3
  ∧ ∃ m, _featurize_edge (featurizer true true true) insertion_rule
           (make_fsa sentence) = Ok m
         ∧ m !! "ins:class:3" = Some f0.
Proof.
  split; [reflexivity|]. eexists. split; [reflexivity|].
  exact (insertion_class_feature (H := collaborators)
           (featurizer true true true) (make_fsa sentence)
           0 0 (word "le" 0 0) (VSym (Terminal "le")) (VInt 0) (VInt 0) "le" _
           ltac:(reflexivity) ltac:(reflexivity) ltac:(reflexivity) ltac:(reflexivity) ltac:(reflexivity) ltac:(reflexivity)).
Defined.

(** C9 at the rule [I:0-0 -> 'le':0-0] with a source-side table of dimension 1
    and a target-side table of dimension 2: the second component of the
    vector of [le] is not emitted. *)
Lemma insertion_dense_features_witness :
  dim (embeddings_ch (featurizer_dims 1 2)) = 1%nat
  ∧ dim (embeddings_en (featurizer_dims 1 2)) = 2%nat
  ∧ get (embeddings_en (featurizer_dims 1 2)) "le" = [0.125; 4]%float
  ∧ ∃ m, _featurize_edge (featurizer_dims 1 2) insertion_rule (make_fsa sentence)
         = Ok m
         ∧ m !! "ins:emb:dim-0" = Some 0.125%float
         ∧ m !! "ins:emb:dim-1" = None.
Proof.
  repeat (split; [reflexivity|]). eexists. split; [reflexivity|].
  pose proof (insertion_dense_features (H := collaborators)
                (featurizer_dims 1 2) (make_fsa sentence)
                0 0 (word "le" 0 0) (VSym (Terminal "le")) (VInt 0) (VInt 0) "le" _
                ltac:(reflexivity) ltac:(reflexivity) ltac:(reflexivity) ltac:(reflexivity) ltac:(reflexivity)) as Hdims.
  split.
  - exact (proj1 (Hdims 0%nat)).
  - apply (Hdims 1%nat). discriminate.
Defined.

(** X1 at the rule [I:0-0 -> 'le':0-0] with two tables of dimension 2. *)
Lemma insertion_dense_features_equal_dims_witness :
  ∃ m, _featurize_edge (featurizer true true true) insertion_rule (make_fsa sentence)
       = Ok m
       ∧ m !! "ins:emb:dim-0" = Some 0.125%float
       ∧ m !! "ins:emb:dim-1" = Some 4%float
       ∧ m !! "ins:emb:dim-2" = None.
Proof.
  eexists. split; [reflexivity|].
  pose proof (insertion_dense_features_equal_dims (H := collaborators)
                (featurizer true true true) (make_fsa sentence)
                0 0 (word "le" 0 0) (VSym (Terminal "le")) (VInt 0) (VInt 0) "le" _
                ltac:(reflexivity) ltac:(reflexivity) ltac:(reflexivity)
                ltac:(reflexivity) ltac:(reflexivity) vec2_wf
                ltac:(intros i; discriminate) ltac:(reflexivity)) as Hdims.
  split; [exact (Hdims 0%nat)|]. split; [exact (Hdims 1%nat)|exact (Hdims 2%nat)].
Defined.

(** X2 at the rule [D:0-1 -> '-EPS-':0-1], the cluster of [the] being 7. *)
Lemma deletion_class_feature_witness :
  get_cluster_id (embeddings_ch (featurizer true true true)) "the" = 7
  ∧ ∃ m, _featurize_edge (featurizer true true true) deletion_rule
           (make_fsa sentence) = Ok m
         ∧ m !! "del:class:7" = Some f1.
Proof.
  split; [reflexivity|]. eexists. split; [reflexivity|].
  exact (deletion_class_feature (H := collaborators)
           (featurizer true true true) (make_fsa sentence)
           0 1 (word "-EPS-" 0 1) (VSym (Terminal "-EPS-")) (VInt 0) (VInt 1)
           "the" _ ltac:(reflexivity) ltac:(reflexivity) ltac:(reflexivity)
           ltac:(reflexivity) ltac:(reflexivity) ltac:(reflexivity)).
Defined.

(** With a source-side table of dimension 2 and a target-side table of
    dimension 1 the same rule raises. *)
Lemma insertion_dense_features_index_error :
  _featurize_edge (featurizer_dims 2 1) insertion_rule (make_fsa sentence)
  = Raise IndexError.
Proof. reflexivity. Qed.

(** C2, as stated, at the rule [D:0-1 -> '-EPS-':0-1]: disabling the sparse
    word features removes the word class key [del:class:7]. *)
Lemma sparse_word_features_class_counterexample :
  with_sparse_word_features false (featurizer true true true)
  = featurizer true true false
  ∧ word_class_features (featurizer true true false) = true
  ∧ (_featurize_edge (featurizer true true true) deletion_rule (make_fsa sentence)
     ≫= λ m, Ok (m !! "del:class:7")) = Ok (Some f1)
  ∧ (_featurize_edge (featurizer true true false) deletion_rule (make_fsa sentence)
     ≫= λ m, Ok (m !! "del:class:7")) = Ok None.
Proof. repeat split. Qed.

End examples.

(** * Further properties of the featurizer *)

(** ** The dense loop and the length of the vector *)

Lemma foldM_dims_getitem_Ok key (v : list float) : ∀ n j (m : FeatureMap),
  (j + n ≤ length v)%nat →
  is_Ok (foldM (λ fmap i, x ← getitem v i;
                  Ok (setitem (key +:+ fmt_d (Z.of_nat i)) x fmap)) m (seq j n)).
Proof.
  induction n as [|n IH]; intros j m Hlen; [by eexists|].
  cbn [seq foldM]. destruct (getitem v j) as [x|e] eqn:Hx; simpl.
  - apply IH. lia.
  - unfold getitem in Hx. destruct (v !! j) eqn:Hj; [done|].
    apply lookup_ge_None in Hj. lia.
Qed.

Lemma foldM_dims_getitem_short key (v : list float) : ∀ n j (m : FeatureMap),
  (j ≤ length v < j + n)%nat →
  foldM (λ fmap i, x ← getitem v i;
           Ok (setitem (key +:+ fmt_d (Z.of_nat i)) x fmap)) m (seq j n)
  = Raise IndexError.
Proof.
  induction n as [|n IH]; intros j m Hlen; [lia|].
  cbn [seq foldM]. destruct (getitem v j) as [x|e] eqn:Hx; simpl.
  - unfold getitem in Hx. destruct (v !! j) eqn:Hj; [|done].
    apply lookup_lt_Some in Hj. apply IH. lia.
  - unfold getitem in Hx. destruct (v !! j); congruence.
Qed.

Lemma emit_dims_getitem_Ok key (v : list float) n (m : FeatureMap) :
  (n ≤ length v)%nat → is_Ok (emit_dims key (λ i, getitem v i) n m).
Proof. intros Hlen. by apply foldM_dims_getitem_Ok. Qed.

Lemma emit_dims_getitem_short key (v : list float) n (m : FeatureMap) :
  (length v < n)%nat → emit_dims key (λ i, getitem v i) n m = Raise IndexError.
Proof. intros Hlen. apply foldM_dims_getitem_short. lia. Qed.

#[global] Arguments agree_where : simpl never.

Lemma agree_where_refl P (r : result FeatureMap) : agree_where P r r.
Proof. by destruct r. Qed.

Lemma lookup_iadd_agree k0 v (m1 m2 : FeatureMap) k :
  m1 !! k = m2 !! k → iadd k0 v m1 !! k = iadd k0 v m2 !! k.
Proof.
  intros Hk. destruct (decide (k0 = k)) as [->|Hne].
  - by rewrite !lookup_iadd_eq, Hk.
  - by rewrite !lookup_iadd_ne.
Qed.

Lemma foldM_dims_raise_inv key vec e : ∀ n j (m : FeatureMap),
  foldM (λ fmap i, x ← vec i; Ok (setitem (key +:+ fmt_d (Z.of_nat i)) x fmap))
        m (seq j n) = Raise e →
  ∃ i, vec i = Raise e.
Proof.
  induction n as [|n IH]; intros j m Hrun; simpl in Hrun; [done|].
  destruct (vec j) as [x|e'] eqn:Hx; simpl in Hrun.
  - by apply IH in Hrun.
  - exists j. congruence.
Qed.

(** The dense loop on two maps that agree on the names selected by [P]. *)
Lemma emit_dims_agree_where P key vec n (G1 G2 : FeatureMap) :
  (∀ k, P k = true → G1 !! k = G2 !! k) →
  agree_where P (emit_dims key vec n G1) (emit_dims key vec n G2).
Proof.
  intros HG. unfold agree_where.
  destruct (emit_dims key vec n G1) as [m1|e1] eqn:H1.
  - destruct (emit_dims key vec n G2) as [m2|e2] eqn:H2.
    2:{ apply (emit_dims_raise _ _ _ _ G1) in H2. congruence. }
    intros k Hk.
    destruct (decide (k ∈ (λ i : nat, key +:+ fmt_d (Z.of_nat i)) <$> seq 0 n))
      as [Hin|Hin].
    + apply list_elem_of_fmap in Hin as (i & -> & Hi).
      apply elem_of_seq in Hi.
      destruct (emit_dims_lookup _ _ _ _ _ i H1) as (x & Hx & ->); [lia|].
      destruct (emit_dims_lookup _ _ _ _ _ i H2) as (y & Hy & ->); [lia|].
      congruence.
    + rewrite (emit_dims_lookup_ne _ _ _ _ _ _ H1), (emit_dims_lookup_ne _ _ _ _ _ _ H2).
      * by apply HG.
      * intros i Hi ->. apply Hin, list_elem_of_fmap. exists i. split; [done|].
        apply elem_of_seq. lia.
      * intros i Hi ->. apply Hin, list_elem_of_fmap. exists i. split; [done|].
        apply elem_of_seq. lia.
  - by rewrite (emit_dims_raise _ _ _ _ G2 _ H1).
Qed.

Section coverage.
Context `{Collaborators}.
Implicit Types (self : Featurizer) (fsa : FSA) (m : FeatureMap).

(** ** The shape of the right-hand side *)

(** X3. A rule without right-hand side makes the featurization raise
    [IndexError]; a rule whose right-hand side has one item, or three and more,
    is featurized as the unary rule of its first item: the other items are
    never read. *)
Theorem rhs_first_item_only self fsa l :
  _featurize_edge self {| lhs := l; rhs := [] |} fsa = Raise IndexError
  ∧ ∀ r0 rest, length rest ≠ 1%nat →
      _featurize_edge self {| lhs := l; rhs := r0 :: rest |} fsa
      = _featurize_edge self {| lhs := l; rhs := [r0] |} fsa.
Proof.
  split; [reflexivity|]. intros r0 rest Hrest.
  unfold _featurize_edge. simpl.
  rewrite decide_False by lia. reflexivity.
Qed.

(** ** Binary rules that read no phrase *)

(** X4. A Binary rule over two right-hand spans whose left-hand span is not
    labelled "X" reads neither the lattice nor the tables: it is mapped to
    [{"type:binary": 1.0, "binary:recursive_deletion": 1.0}] when the
    left-hand span is labelled "D" and to [{"type:binary": 1.0}] otherwise. *)
Theorem binary_rule_without_phrases self fsa sym ls le s1 i1 j1 s2 i2 j2 :
  sym ≠ Nonterminal "X" →
  _featurize_edge self
    {| lhs := Span sym ls le; rhs := [Span s1 i1 j1; Span s2 i2 j2] |} fsa
  = Ok (if decide (sym = Nonterminal "D")
        then {["binary:recursive_deletion" := f1; "type:binary" := f1]}
        else {["type:binary" := f1]}).
Proof.
  intros HX. unfold _featurize_edge. simpl. unfold _featurize_binary_rule. simpl.
  rewrite !py_eq_sym.
  destruct (decide (sym = Nonterminal "D")) as [->|HD]; [reflexivity|].
  rewrite (bool_decide_eq_false_2 _ HD), (bool_decide_eq_false_2 _ HX).
  reflexivity.
Qed.

(** ** Terminal rules *)

(** X5. A terminal rule whose left-hand span is labelled neither "D" nor "I"
    nor "T" is mapped to exactly [{"type:terminal": 1.0}]. *)
Theorem terminal_rule_other_label self fsa sym ls le s i j :
  is_terminal s = true →
  sym ≠ Nonterminal "D" → sym ≠ Nonterminal "I" → sym ≠ Nonterminal "T" →
  _featurize_edge self {| lhs := Span sym ls le; rhs := [Span s i j] |} fsa
  = Ok {["type:terminal" := f1]}.
Proof.
  intros Hterm HD HI HT. unfold _featurize_edge. simpl. rewrite Hterm.
  unfold _featurize_terminal_rule. simpl. rewrite !py_eq_sym.
  rewrite (bool_decide_eq_false_2 _ HD), (bool_decide_eq_false_2 _ HI),
    (bool_decide_eq_false_2 _ HT).
  reflexivity.
Qed.

(** X6. For a Deletion rule, a terminal right-hand side under a left-hand span
    labelled "D", the returned map holds [type:terminal = 1.0],
    [type:deletion = 1.0] and
    [ibm1:del:logprob = 0.0 + log(P(src, "-EPS-") + 1e-10)], whatever the
    options; it has no key [target-len]. *)
Theorem deletion_rule_scores self fsa ls le r0 sym a b src m :
  is_terminal r0 = true →
  unpack3 (obj r0) = Ok (sym, a, b) →
  get_source_word fsa (VInt ls) (VInt le) = Ok src →
  _featurize_edge self {| lhs := Span (Nonterminal "D") ls le; rhs := [r0] |} fsa
  = Ok m →
  m !! "type:terminal" = Some f1
  ∧ m !! "type:deletion" = Some f1
  ∧ m !! "ibm1:del:logprob"
    = Some (f0 + np_log (ibm1_probs self (src, "-EPS-") + eps))%float
  ∧ m !! "target-len" = None.
Proof.
  intros Hterm Hunpack Hsrc.
  unfold _featurize_edge. simpl. rewrite Hterm.
  unfold _featurize_terminal_rule. simpl. rewrite Hunpack. simpl.
  rewrite Hsrc. simpl. intros Hrun.
  assert (∀ k, k = "type:terminal" ∨ k = "type:deletion"
               ∨ k = "ibm1:del:logprob" ∨ k = "target-len" →
    m !! k = iadd "ibm1:del:logprob"
               (np_log (ibm1_probs self (src, "-EPS-") + eps)%float)
               (iadd "type:deletion" f1 (iadd "type:terminal" f1 ∅)) !! k) as Hm.
  { intros k Hk'.
    destruct (dense_word_emb_features self).
    - rewrite (emit_dims_lookup_ne _ _ _ _ _ k Hrun)
        by (destruct Hk' as [-> | [-> | [-> | ->]]]; key_ne).
      destruct (word_class_features self), (sparse_word_features self);
        simpl; destruct Hk' as [-> | [-> | [-> | ->]]];
        by rewrite ?lookup_iadd_ne by key_ne.
    - injection Hrun as <-.
      destruct (word_class_features self), (sparse_word_features self);
        simpl; destruct Hk' as [-> | [-> | [-> | ->]]];
        by rewrite ?lookup_iadd_ne by key_ne. }
  rewrite !Hm by auto. repeat split; by lookup_iadd.
Qed.

(** X7. For a Deletion rule featurized with the dense embedding features
    enabled: when the vector of the source word has at least as many components
    as the source-side table has dimensions, the featurization returns and
    [del:emb:dim-<i>] holds the [i]-th component for every [i] below the
    dimension, overwriting a sparse feature of the same name; when the vector
    is shorter, the featurization raises [IndexError]. *)
Theorem deletion_dense_features self fsa ls le r0 sym a b src :
  is_terminal r0 = true →
  unpack3 (obj r0) = Ok (sym, a, b) →
  get_source_word fsa (VInt ls) (VInt le) = Ok src →
  dense_word_emb_features self = true →
  let edge := {| lhs := Span (Nonterminal "D") ls le; rhs := [r0] |} in
  let ch_emb := get (embeddings_ch self) src in
  ((dim (embeddings_ch self) ≤ length ch_emb)%nat →
   ∃ m, _featurize_edge self edge fsa = Ok m
        ∧ ∀ i : nat, (i < dim (embeddings_ch self))%nat →
            m !! ("del:emb:dim-" +:+ fmt_d (Z.of_nat i)) = ch_emb !! i)
  ∧ ((length ch_emb < dim (embeddings_ch self))%nat →
     _featurize_edge self edge fsa = Raise IndexError).
Proof.
  intros Hterm Hunpack Hsrc Hdense edge ch_emb. subst edge ch_emb.
  unfold _featurize_edge. simpl. rewrite Hterm.
  unfold _featurize_terminal_rule. simpl. rewrite Hunpack. simpl.
  rewrite Hsrc. simpl. rewrite Hdense. split.
  - intros Hlen.
    match goal with
    | |- ∃ m, emit_dims ?key ?vec ?n ?G = Ok m ∧ _ =>
        destruct (emit_dims_getitem_Ok key (get (embeddings_ch self) src) n G Hlen)
          as [m Hrun]
    end.
    exists m. split; [exact Hrun|]. intros i Hi.
    destruct (emit_dims_lookup _ _ _ _ _ i Hrun Hi) as (x & Hx & ->).
    unfold getitem in Hx.
    destruct (get (embeddings_ch self) src !! i); congruence.
  - intros Hlen. by apply emit_dims_getitem_short.
Qed.

(** X8. For an Insertion rule, a terminal right-hand side under a left-hand
    span labelled "I", the returned map holds [type:terminal = 1.0],
    [type:insertion = 1.0], [target-len = 1.0] and
    [ibm1:ins:logprob = 0.0 + log(P("-EPS-", tgt) + 1e-10)], whatever the
    options. *)
Theorem insertion_rule_scores self fsa ls le r0 sym a b tgt m :
  is_terminal r0 = true →
  unpack3 (obj r0) = Ok (sym, a, b) →
  get_target_word sym = Ok tgt →
  _featurize_edge self {| lhs := Span (Nonterminal "I") ls le; rhs := [r0] |} fsa
  = Ok m →
  m !! "type:terminal" = Some f1
  ∧ m !! "type:insertion" = Some f1
  ∧ m !! "target-len" = Some f1
  ∧ m !! "ibm1:ins:logprob"
    = Some (f0 + np_log (ibm1_probs self ("-EPS-", tgt) + eps))%float.
Proof.
  intros Hterm Hunpack Htgt.
  unfold _featurize_edge. simpl. rewrite Hterm.
  unfold _featurize_terminal_rule. simpl. rewrite Hunpack. simpl.
  rewrite Htgt. simpl. intros Hrun.
  assert (∀ k, k = "type:terminal" ∨ k = "type:insertion"
               ∨ k = "target-len" ∨ k = "ibm1:ins:logprob" →
    m !! k = iadd "ibm1:ins:logprob"
               (np_log (ibm1_probs self ("-EPS-", tgt) + eps)%float)
               (iadd "target-len" f1
                  (iadd "type:insertion" f1 (iadd "type:terminal" f1 ∅))) !! k)
    as Hm.
  { intros k Hk'.
    destruct (dense_word_emb_features self).
    - rewrite (emit_dims_lookup_ne _ _ _ _ _ k Hrun)
        by (destruct Hk' as [-> | [-> | [-> | ->]]]; key_ne).
      destruct (word_class_features self), (sparse_word_features self);
        simpl; destruct Hk' as [-> | [-> | [-> | ->]]];
        rewrite ?lookup_touch_ne by key_ne;
        by rewrite ?lookup_iadd_ne by key_ne.
    - injection Hrun as <-.
      destruct (word_class_features self), (sparse_word_features self);
        simpl; destruct Hk' as [-> | [-> | [-> | ->]]];
        rewrite ?lookup_touch_ne by key_ne;
        by rewrite ?lookup_iadd_ne by key_ne. }
  rewrite !Hm by auto. repeat split; by lookup_iadd.
Qed.

(** X9. The source lattice is read only for rules whose left-hand span is
    labelled "D", "T" or "X": for a left-hand span with any other symbol the
    outcome is the same for every lattice. *)
Theorem lattice_not_read self fsa1 fsa2 sym ls le items :
  sym ≠ Nonterminal "D" → sym ≠ Nonterminal "T" → sym ≠ Nonterminal "X" →
  _featurize_edge self {| lhs := Span sym ls le; rhs := items |} fsa1
  = _featurize_edge self {| lhs := Span sym ls le; rhs := items |} fsa2.
Proof.
  intros HD HT HX. unfold _featurize_edge. simpl.
  destruct (decide (length items = 2%nat)) as [Hlen|Hlen].
  - unfold _featurize_binary_rule. simpl.
    destruct (getitem items 0) as [r0|e]; [simpl|done].
    destruct (unpack3 (obj r0)) as [[[? ?] ?]|e]; [simpl|done].
    destruct (getitem items 1) as [r1|e]; [simpl|done].
    destruct (unpack3 (obj r1)) as [[[? ?] ?]|e]; [simpl|done].
    rewrite !py_eq_sym.
    by rewrite (bool_decide_eq_false_2 _ HD), (bool_decide_eq_false_2 _ HX).
  - destruct (getitem items 0) as [r0|e] eqn:Hr0; [simpl|done].
    destruct (is_terminal r0).
    + unfold _featurize_terminal_rule. simpl. rewrite Hr0. simpl.
      destruct (unpack3 (obj r0)) as [[[? ?] ?]|e]; [simpl|done].
      rewrite !py_eq_sym.
      by rewrite (bool_decide_eq_false_2 _ HD), (bool_decide_eq_false_2 _ HT).
    + rewrite py_eq_sym, (bool_decide_eq_false_2 _ HX). reflexivity.
Qed.

(** X10. For a Translation rule featurized with the dense embedding features
    enabled, the returned map holds [type:translation = 1.0],
    [target-len = 1.0] and, for every [i] below the dimension of the
    source-side table, [trans:emb:dim-<i>] is the [i]-th component of the
    source word's vector minus the [i]-th component of the target word's
    vector. *)
Theorem translation_dense_features self fsa ls le r0 sym a b src tgt m :
  is_terminal r0 = true →
  unpack3 (obj r0) = Ok (sym, a, b) →
  get_source_word fsa (VInt ls) (VInt le) = Ok src →
  get_target_word sym = Ok tgt →
  dense_word_emb_features self = true →
  _featurize_edge self {| lhs := Span (Nonterminal "T") ls le; rhs := [r0] |} fsa
  = Ok m →
  m !! "type:translation" = Some f1
  ∧ m !! "target-len" = Some f1
  ∧ ∀ i : nat, (i < dim (embeddings_ch self))%nat →
      ∃ x y, get (embeddings_ch self) src !! i = Some x
             ∧ get (embeddings_en self) tgt !! i = Some y
             ∧ m !! ("trans:emb:dim-" +:+ fmt_d (Z.of_nat i)) = Some (x - y)%float.
Proof.
  intros Hterm Hunpack Hsrc Htgt Hdense.
  unfold _featurize_edge. simpl. rewrite Hterm.
  unfold _featurize_terminal_rule. simpl. rewrite Hunpack. simpl.
  rewrite Hsrc. simpl. rewrite Htgt. simpl. rewrite Hdense. intros Hrun.
  split; [|split].
  - rewrite (emit_dims_lookup_ne _ _ _ _ _ _ Hrun) by key_ne.
    destruct (word_class_features self), (sparse_word_features self);
      simpl; by lookup_iadd.
  - rewrite (emit_dims_lookup_ne _ _ _ _ _ _ Hrun) by key_ne.
    destruct (word_class_features self), (sparse_word_features self);
      simpl; by lookup_iadd.
  - intros i Hi.
    destruct (emit_dims_lookup _ _ _ _ _ i Hrun Hi) as (z & Hz & ->).
    unfold getitem in Hz.
    destruct (get (embeddings_ch self) src !! i) as [x|]; [simpl in Hz|done].
    destruct (get (embeddings_en self) tgt !! i) as [y|]; [simpl in Hz|done].
    injection Hz as <-. by exists x, y.
Qed.

(** ** The options [word_class_features] and [dense_word_emb_features] *)

(** One step of two runs that start with the same call. *)
Ltac step_both :=
  match goal with
  | |- agree_where _ (?r ≫= _) (?r ≫= _) =>
      let x := fresh "x" in
      destruct r as [x|?]; [try destruct x as [[? ?] ?]; simpl|done]
  | |- agree_where _ (if ?c then _ else _) (if ?c then _ else _) =>
      destruct c; simpl
  | |- agree_where _ (Raise _) (Raise _) => done
  end.

Lemma terminal_rule_word_class self rule fsa :
  agree_where (λ k, negb (class_key k))
    (_featurize_terminal_rule (with_word_class_features true self) rule fsa ∅)
    (_featurize_terminal_rule (with_word_class_features false self) rule fsa ∅).
Proof.
  unfold _featurize_terminal_rule. simpl.
  do 3 step_both.
  repeat step_both.
  all: destruct (sparse_word_features self).
  all: first [apply emit_dims_agree_where | unfold agree_where].
  all: intros k Hk; apply negb_true_iff in Hk.
  all: rewrite ?lookup_touch_ne by key_ne_by Hk.
  all: by rewrite ?lookup_iadd_ne by key_ne_by Hk.
Qed.

Lemma binary_rule_word_class self rule fsa :
  agree_where (λ k, negb (class_key k))
    (_featurize_binary_rule (with_word_class_features true self) rule fsa ∅)
    (_featurize_binary_rule (with_word_class_features false self) rule fsa ∅).
Proof.
  unfold _featurize_binary_rule. simpl.
  repeat step_both; try (intros k Hk; apply negb_true_iff in Hk); try done.
  all: apply lookup_iadd_agree.
  all: by rewrite lookup_skip_grams_ne by key_ne_by Hk.
Qed.

(** X11. For every rule, the featurizer constructed with [word_class_features]
    disabled, all other options unchanged, has the same outcome as the enabled
    one: the same exception, or a feature map in which every name that begins
    with none of [skip-gram:word-classes:], [del:class:], [ins:class:],
    [trans:class:] has the value it has in the enabled map. *)
Theorem word_class_features_disabled self edge fsa :
  match _featurize_edge (with_word_class_features true self) edge fsa,
        _featurize_edge (with_word_class_features false self) edge fsa with
  | Ok m_on, Ok m_off => ∀ k, class_key k = false → m_off !! k = m_on !! k
  | Raise e_on, Raise e_off => e_on = e_off
  | _, _ => False
  end.
Proof.
  assert (agree_where (λ k, negb (class_key k))
    (_featurize_edge (with_word_class_features true self) edge fsa)
    (_featurize_edge (with_word_class_features false self) edge fsa)) as Hagree.
  { unfold _featurize_edge.
    destruct (decide (length (rhs edge) = 2%nat)) as [Hlen|Hlen];
      [apply binary_rule_word_class|].
    step_both. destruct (is_terminal _); [apply terminal_rule_word_class|].
    apply agree_where_refl. }
  unfold agree_where in Hagree.
  destruct (_featurize_edge (with_word_class_features true self) edge fsa),
    (_featurize_edge (with_word_class_features false self) edge fsa); try done.
  intros k Hk. symmetry. apply Hagree. by rewrite Hk.
Qed.

Lemma terminal_rule_dense self rule fsa :
  match _featurize_terminal_rule (with_dense_word_emb_features true self) rule fsa ∅,
        _featurize_terminal_rule (with_dense_word_emb_features false self) rule fsa ∅
  with
  | Ok m_on, Ok m_off => ∀ k, emb_key k = false → m_off !! k = m_on !! k
  | Raise e_on, Raise e_off => e_on = e_off
  | Raise e_on, Ok _ => e_on = IndexError
  | Ok _, Raise _ => False
  end.
Proof.
  unfold _featurize_terminal_rule. simpl.
  destruct (unpack3 (obj (lhs rule))) as [[[lhs_symbol lhs_start] lhs_end]|e];
    [simpl|done].
  destruct (getitem (rhs rule) 0) as [r0|e]; [simpl|done].
  destruct (unpack3 (obj r0)) as [[[rhs_symbol rhs_start] rhs_end]|e];
    [simpl|done].
  destruct (py_eq lhs_symbol (VSym (Nonterminal "D"))).
  { destruct (get_source_word fsa lhs_start lhs_end) as [src_word|e];
      [simpl|done].
    destruct (emit_dims _ _ _ _) as [m_on|e] eqn:Hrun.
    - intros k Hk. symmetry. apply (emit_dims_lookup_ne _ _ _ _ _ _ Hrun).
      key_ne_by Hk.
    - apply foldM_dims_raise_inv in Hrun as [i Hi].
      unfold getitem in Hi. destruct (_ !! i); congruence. }
  destruct (py_eq lhs_symbol (VSym (Nonterminal "I"))).
  { destruct (get_target_word rhs_symbol) as [tgt_word|e]; [simpl|done].
    destruct (emit_dims _ _ _ _) as [m_on|e] eqn:Hrun.
    - intros k Hk. symmetry. apply (emit_dims_lookup_ne _ _ _ _ _ _ Hrun).
      key_ne_by Hk.
    - apply foldM_dims_raise_inv in Hrun as [i Hi].
      unfold getitem in Hi. destruct (_ !! i); congruence. }
  destruct (py_eq lhs_symbol (VSym (Nonterminal "T"))); [|done].
  destruct (get_source_word fsa lhs_start lhs_end) as [src_word|e];
    [simpl|done].
  destruct (get_target_word rhs_symbol) as [tgt_word|e]; [simpl|done].
  destruct (emit_dims _ _ _ _) as [m_on|e] eqn:Hrun.
  - intros k Hk. symmetry. apply (emit_dims_lookup_ne _ _ _ _ _ _ Hrun).
    key_ne_by Hk.
  - apply foldM_dims_raise_inv in Hrun as [i Hi].
    unfold getitem in Hi.
    destruct (get (embeddings_ch self) src_word !! i); simpl in Hi;
      [|congruence].
    destruct (get (embeddings_en self) tgt_word !! i); simpl in Hi;
      [done|congruence].
Qed.

(** X12. For every rule, enabling [dense_word_emb_features] changes the
    outcome of the disabled featurizer in two ways only: it adds or overwrites
    names that begin with [del:emb:dim-], [ins:emb:dim-] or [trans:emb:dim-],
    all other names keeping their value, or it raises [IndexError] where the
    disabled featurizer returns.  An exception of the disabled featurizer is
    the exception of the enabled one. *)
Theorem dense_word_emb_features_disabled self edge fsa :
  match _featurize_edge (with_dense_word_emb_features true self) edge fsa,
        _featurize_edge (with_dense_word_emb_features false self) edge fsa with
  | Ok m_on, Ok m_off => ∀ k, emb_key k = false → m_off !! k = m_on !! k
  | Raise e_on, Raise e_off => e_on = e_off
  | Raise e_on, Ok _ => e_on = IndexError
  | Ok _, Raise _ => False
  end.
Proof.
  unfold _featurize_edge.
  destruct (decide (length (rhs edge) = 2%nat)) as [Hlen|Hlen].
  { change (_featurize_binary_rule (with_dense_word_emb_features true self))
      with (_featurize_binary_rule self).
    change (_featurize_binary_rule (with_dense_word_emb_features false self))
      with (_featurize_binary_rule self).
    by destruct (_featurize_binary_rule self edge fsa ∅). }
  destruct (getitem (rhs edge) 0) as [r0|e]; [simpl|done].
  destruct (is_terminal r0); [apply terminal_rule_dense|].
  by destruct (_ ≫= _).
Qed.

(** X20. With [sparse_word_features] disabled, [word_class_features] has no
    effect on a rule that is not binary: the word class features of terminal
    rules are written only when both options are enabled. *)
Theorem word_class_needs_sparse self edge fsa :
  sparse_word_features self = false →
  length (rhs edge) ≠ 2%nat →
  _featurize_edge (with_word_class_features true self) edge fsa
  = _featurize_edge (with_word_class_features false self) edge fsa.
Proof.
  intros Hsparse Hlen. unfold _featurize_edge.
  rewrite !decide_False by done.
  destruct (getitem (rhs edge) 0) as [r0|e]; simpl; [|done].
  destruct (is_terminal r0); [|done].
  unfold _featurize_terminal_rule. simpl. by rewrite !Hsparse.
Qed.

(** X13. The features of a binary rule do not depend on
    [dense_word_emb_features] nor on [sparse_word_features]: the phrase
    vectors and the skip-grams of the words are emitted whatever these
    options are. *)
Theorem binary_rule_ignores_dense_and_sparse self dense sparse items l fsa :
  length items = 2%nat →
  _featurize_edge
    (with_dense_word_emb_features dense (with_sparse_word_features sparse self))
    {| lhs := l; rhs := items |} fsa
  = _featurize_edge self {| lhs := l; rhs := items |} fsa.
Proof.
  intros Hlen. unfold _featurize_edge. simpl.
  destruct (decide (length items = 2%nat)); [reflexivity|done].
Qed.

(** ** Forests and derivations *)

Lemma forest_loop_is_Ok self fsa : ∀ Dx features,
  Forall (λ edge, is_Ok (_featurize_edge self edge fsa)) Dx →
  is_Ok (foldM (add_edge self fsa) features Dx).
Proof.
  induction Dx as [|edge Dx IH]; intros features Hall; [by eexists|].
  apply Forall_cons in Hall as [[fmap Hedge] Hall].
  cbn [foldM]. unfold add_edge. rewrite Hedge. simpl. exact (IH _ Hall).
Qed.

Lemma forest_loop_raise self fsa e edge post : ∀ pre features,
  Forall (λ edge, is_Ok (_featurize_edge self edge fsa)) pre →
  _featurize_edge self edge fsa = Raise e →
  foldM (add_edge self fsa) features (pre ++ edge :: post) = Raise e.
Proof.
  induction pre as [|edge' pre IH]; intros features Hall Hedge.
  - cbn [app foldM]. unfold add_edge. by rewrite Hedge.
  - apply Forall_cons in Hall as [[fmap Hedge'] Hall].
    cbn [app foldM]. unfold add_edge. rewrite Hedge'. simpl.
    exact (IH _ Hall Hedge).
Qed.

(** X14. A batch of one tuple with a best derivation is featurized exactly as
    [featurize_parse_trees] featurizes its forest, its derivation and its
    source sentence. *)
Theorem single_tuple_batch self Dx d source target :
  featurize_parse_trees_batch self [(Dx, Some d, source, target)]
  = featurize_parse_trees self Dx (Some d) source.
Proof.
  unfold featurize_parse_trees_batch, featurize_parse_trees. simpl.
  destruct (foldM _ Features_new Dx) as [features|e]; simpl; [|done].
  destruct (last (_rules d)) as [r|]; simpl; [|done].
  by destruct (add_edge self (make_fsa source) features r).
Qed.

(** X15. The first edge of a forest whose featurization raises ends the whole
    call with that exception: [featurize_parse_trees] returns no container for
    the edges before it, and neither does a batch whose first tuple holds that
    forest. *)
Theorem forest_first_failure self pre edge post Dxy x e :
  Forall (λ edge, is_Ok (_featurize_edge self edge (make_fsa x))) pre →
  _featurize_edge self edge (make_fsa x) = Raise e →
  featurize_parse_trees self (pre ++ edge :: post) Dxy x = Raise e
  ∧ ∀ target rest,
      featurize_parse_trees_batch self
        ((pre ++ edge :: post, Dxy, x, target) :: rest) = Raise e.
Proof.
  intros Hpre Hedge. split.
  - unfold featurize_parse_trees. simpl.
    by rewrite (forest_loop_raise _ _ _ _ post _ Features_new Hpre Hedge).
  - intros target rest. unfold featurize_parse_trees_batch. simpl.
    by rewrite (forest_loop_raise _ _ _ _ post _ Features_new Hpre Hedge).
Qed.

(** X16. When the edges of the forest featurize, [featurize_parse_trees] with
    a best derivation reads the last rule of the derivation only: it adds the
    entry of that rule after the entries of the forest's edges, whether or not
    the rule is an edge of the forest, and raises what the featurization of
    that rule raises; a derivation without rules makes it raise
    [IndexError]. *)
Theorem best_derivation_last_rule self Dx x fmaps d :
  Forall2 (λ edge fmap, _featurize_edge self edge (make_fsa x) = Ok fmap)
          Dx fmaps →
  featurize_parse_trees self Dx (Some d) x
  = match last (_rules d) with
    | Some r =>
        fmap ← _featurize_edge self r (make_fsa x);
        Ok (Features_add
              (foldl (λ features p, Features_add features p.1 p.2)
                     Features_new (zip Dx fmaps)) r fmap)
    | None => Raise IndexError
    end.
Proof.
  intros Hall. unfold featurize_parse_trees. simpl.
  rewrite (forest_loop_Ok _ _ _ _ _ Hall). simpl.
  by destruct (last (_rules d)).
Qed.

(** ** Binary rules over a span labelled "X" *)

Lemma lookup_foldl_enumerate key : ∀ (vec : list float) j (m : FeatureMap) i,
  foldl (λ fmap p, setitem (key +:+ fmt_d (Z.of_nat p.1)) p.2 fmap)
        m (zip (seq j (length vec)) vec) !! (key +:+ fmt_d (Z.of_nat i))
  = match (if decide (j ≤ i)%nat then vec !! (i - j)%nat else None) with
    | Some x => Some x
    | None => m !! (key +:+ fmt_d (Z.of_nat i))
    end.
Proof.
  induction vec as [|x vec IH]; intros j m i.
  - simpl. by destruct (decide (j ≤ i)%nat).
  - cbn [length seq zip zip_with foldl]. rewrite IH. cbn [fst snd].
    destruct (decide (S j ≤ i)%nat) as [Hlt|Hge].
    + rewrite decide_True by lia.
      replace (i - j)%nat with (S (i - S j)) by lia. cbn [lookup list_lookup].
      destruct (vec !! (i - S j)%nat); [done|].
      apply lookup_setitem_ne. intros Heq. apply dim_key_inj in Heq. lia.
    + destruct (decide (j ≤ i)%nat) as [Hle|Hlt].
      * assert (i = j) as -> by lia. rewrite Nat.sub_diag. cbn [lookup list_lookup].
        apply lookup_setitem_eq.
      * apply lookup_setitem_ne. intros Heq. apply dim_key_inj in Heq. lia.
Qed.

(** After the loop a name of the family holds the component of its index. *)
Lemma lookup_emit_enumerate key vec (m : FeatureMap) (i : nat) :
  emit_enumerate key vec m !! (key +:+ fmt_d (Z.of_nat i))
  = match vec !! i with
    | Some x => Some x
    | None => m !! (key +:+ fmt_d (Z.of_nat i))
    end.
Proof.
  unfold emit_enumerate. rewrite lookup_foldl_enumerate.
  rewrite decide_True by lia. by rewrite Nat.sub_0_r.
Qed.

(** On a well-formed table the sum of the vectors of a phrase never raises. *)
Lemma phrase_repr_sum e phrase :
  emb_wf e → phrase_repr e phrase = Ok (phrase_sum e phrase).
Proof.
  intros Hwf. unfold phrase_repr, phrase_sum.
  assert (length (np_zeros (dim e)) = dim e) as Hlen
    by apply length_replicate.
  revert Hlen. generalize (np_zeros (dim e)).
  induction phrase as [|w phrase IH]; intros acc Hacc; [done|].
  cbn [foldM fmap list_fmap foldl].
  unfold np_iadd. rewrite decide_True by (by rewrite Hwf, Hacc). simpl.
  apply IH. rewrite length_zip_with, Hwf, Hacc. lia.
Qed.

(** X17. For a Binary rule over two right-hand spans whose left-hand span is
    labelled "X", the returned map holds [type:binary = 1.0] and
    [source-span-len-<n> = 1.0], [n] being the end minus the start of the
    left-hand span. *)
Theorem binary_span_length_feature self fsa ls le s1 i1 j1 s2 i2 j2 m :
  _featurize_edge self
    {| lhs := Span (Nonterminal "X") ls le;
       rhs := [Span s1 i1 j1; Span s2 i2 j2] |} fsa
  = Ok m →
  m !! "type:binary" = Some f1
  ∧ m !! ("source-span-len-" +:+ fmt_d (le - ls)) = Some f1.
Proof.
  unfold _featurize_edge. simpl. unfold _featurize_binary_rule. simpl.
  intros Hrun.
  bind_inv Hrun. destruct (decide _) in Hrun; [|done].
  bind_inv Hrun. injection Hrun as <-.
  rewrite lookup_iadd_eq, lookup_iadd_ne by key_ne.
  destruct (word_class_features self);
    rewrite !lookup_skip_grams_ne by key_ne.
  all: match goal with
       | Hout : (if decide _ then _ else _) = Ok _ |- _ =>
           destruct (decide _) in Hout;
           [bind_inv Hout|]; injection Hout as <-
       end.
  all: rewrite !lookup_emit_enumerate_ne by key_ne.
  all: destruct (py_eq _ _); split; by lookup_iadd.
Qed.

(** X18. For a Binary rule over two right-hand spans whose left-hand span is
    labelled "X", on a well-formed source-side table: [inside-phrase-<i>] is
    the [i]-th component of the sum of the vectors of the words of the
    left-hand span, for every [i] below the dimension, and is absent for the
    other [i]; [outside-phrase-<i>] is the same for the words before and
    after the span, and is absent for every [i] when there are no such
    words.  Neither depends on [dense_word_emb_features]. *)
Theorem binary_phrase_vectors self fsa ls le s1 i1 j1 s2 i2 j2
    inside before after m :
  emb_wf (embeddings_ch self) →
  get_phrase fsa (VInt ls) (VInt le) = Ok inside →
  get_phrase fsa (VInt 0) (VInt ls) = Ok before →
  get_phrase fsa (VInt le) (VInt (nb_states fsa)) = Ok after →
  _featurize_edge self
    {| lhs := Span (Nonterminal "X") ls le;
       rhs := [Span s1 i1 j1; Span s2 i2 j2] |} fsa
  = Ok m →
  ∀ i : nat,
    m !! ("inside-phrase-" +:+ fmt_d (Z.of_nat i))
    = phrase_sum (embeddings_ch self) inside !! i
    ∧ m !! ("outside-phrase-" +:+ fmt_d (Z.of_nat i))
      = if decide (before ++ after = []) then None
        else phrase_sum (embeddings_ch self) (before ++ after) !! i.
Proof.
  intros Hwf Hinside Hbefore Hafter.
  unfold _featurize_edge. simpl. unfold _featurize_binary_rule. simpl.
  rewrite Hinside. simpl.
  destruct (decide (0 < length inside)%nat); [|done].
  rewrite (phrase_repr_sum _ _ Hwf). simpl.
  rewrite Hbefore. simpl. rewrite Hafter. simpl.
  intros Hrun i.
  bind_inv Hrun. injection Hrun as <-.
  rewrite !lookup_iadd_ne by key_ne.
  destruct (word_class_features self);
    rewrite !lookup_skip_grams_ne by key_ne.
  all: match goal with
       | Hout : (if decide _ then _ else _) = Ok _ |- _ =>
           destruct (decide (0 < length (before ++ after))%nat) as [Hout'|Hout']
             in Hout;
           [rewrite (phrase_repr_sum _ _ Hwf) in Hout; simpl in Hout|];
           injection Hout as <-
       end.
  all: destruct (decide (before ++ after = [])) as [Hnil|Hnil];
    try (rewrite Hnil in Hout'; simpl in Hout'; lia);
    try (destruct (before ++ after); [done|simpl in Hout'; lia]).
  all: split.
  all: rewrite ?(lookup_emit_enumerate_ne "outside-phrase-" _ _
                   ("inside-phrase-" +:+ _)) by key_ne.
  all: rewrite ?(lookup_emit_enumerate_ne "inside-phrase-" _ _
                   ("outside-phrase-" +:+ _)) by key_ne.
  all: rewrite ?lookup_emit_enumerate.
  all: rewrite ?(lookup_emit_enumerate_ne "inside-phrase-" _ _
                   ("outside-phrase-" +:+ _)) by key_ne.
  all: repeat match goal with
       | |- context [match ?v !! ?j with _ => _ end] => destruct (v !! j)
       end; try done.
  all: destruct (py_eq _ _); by lookup_iadd.
Qed.

(** *** Skip-grams *)

Lemma foldl_ext_eq {A B} (f g : B → A → B) (l : list A) :
  (∀ b a, f b a = g b a) → ∀ b, foldl f b l = foldl g b l.
Proof.
  intros Hfg. induction l as [|a l IH]; intros b; [done|].
  simpl. by rewrite Hfg, IH.
Qed.

Lemma foldl_seq_S {B} (f : B → nat → B) : ∀ n j b,
  foldl f b (seq (S j) n) = foldl (λ b i, f b (S i)) b (seq j n).
Proof. induction n as [|n IH]; intros j b; [done|]. simpl. by rewrite IH. Qed.

(** A loop over the positions of the tail of a list is a loop over its
    elements. *)
Lemma foldl_seq_lookup {A B} (f : B → A → B) : ∀ (t pre : list A) (b : B),
  foldl (λ b j, match (pre ++ t) !! j with Some x => f b x | None => b end)
        b (seq (length pre) (length t))
  = foldl f b t.
Proof.
  induction t as [|x t IH]; intros pre b; [done|].
  cbn [length seq foldl]. rewrite list_lookup_middle by done.
  replace (pre ++ x :: t) with ((pre ++ [x]) ++ t) by by rewrite <- app_assoc.
  replace (S (length pre)) with (length (pre ++ [x]))
    by (rewrite length_app; simpl; lia).
  apply IH.
Qed.

Lemma skip_grams_cons {A} (key : A → A → string) (a : A) (t : list A)
    (m : FeatureMap) :
  skip_grams key (a :: t) m
  = skip_grams key t (foldl (λ m b, iadd (key a b) f1 m) m t).
Proof.
  unfold skip_grams. cbn [length seq foldl].
  replace (S (length t) - 1)%nat with (length t) by lia.
  rewrite foldl_seq_S.
  rewrite <- (foldl_seq_lookup (λ m b, iadd (key a b) f1 m) t [a] m).
  apply foldl_ext_eq. intros b i. rewrite foldl_seq_S. reflexivity.
Qed.

Lemma bump_add n1 n2 v : bump (n1 + n2) v = bump n2 (bump n1 v).
Proof. revert v. induction n1 as [|n1 IH]; intros v; [done|]. simpl. apply IH. Qed.

Lemma lookup_foldl_iadd {A} (key : A → string) (t : list A) k :
  ∀ m : FeatureMap,
  foldl (λ m b, iadd (key b) f1 m) m t !! k
  = bump (length (filter (λ b, key b = k) t)) (m !! k).
Proof.
  induction t as [|b t IH]; intros m; [done|].
  cbn [foldl]. rewrite IH. rewrite filter_cons.
  destruct (decide (key b = k)) as [<-|Hne].
  - by rewrite lookup_iadd_eq.
  - by rewrite lookup_iadd_ne.
Qed.

(** After the two loops a name holds one increment per pair of positions. *)
Lemma lookup_skip_grams {A} (key : A → A → string) (l : list A) k :
  ∀ m : FeatureMap,
  skip_grams key l m !! k = bump (pair_count key l k) (m !! k).
Proof.
  induction l as [|a t IH]; intros m; [done|].
  rewrite skip_grams_cons, IH, (lookup_foldl_iadd (key a)).
  cbn [pair_count]. by rewrite bump_add.
Qed.

(** X19. For a Binary rule over two right-hand spans whose left-hand span is
    labelled "X", a name that begins with [skip-gram:] is incremented by [1.0]
    once for every pair of positions [i < j] of the right-hand phrase (the
    words of the first span followed by the words of the second) whose words
    spell that name, and, with the word class features enabled, once for
    every such pair whose cluster ids spell it; the name is absent when there
    is no such pair. *)
Theorem binary_skip_gram_counts self fsa ls le s1 i1 j1 s2 i2 j2
    rhs_1 rhs_2 m k :
  get_phrase fsa (VInt i1) (VInt j1) = Ok rhs_1 →
  get_phrase fsa (VInt i2) (VInt j2) = Ok rhs_2 →
  starts_with "skip-gram:" k = true →
  _featurize_edge self
    {| lhs := Span (Nonterminal "X") ls le;
       rhs := [Span s1 i1 j1; Span s2 i2 j2] |} fsa
  = Ok m →
  let rhs_phrase := rhs_1 ++ rhs_2 in
  let n_words :=
    pair_count (λ a b, "skip-gram:" +:+ a +:+ "/" +:+ b) rhs_phrase k in
  let n_classes :=
    if word_class_features self
    then pair_count
           (λ a b, "skip-gram:word-classes:" +:+ fmt_d a +:+ "/" +:+ fmt_d b)
           (map (get_cluster_id (embeddings_ch self)) rhs_phrase) k
    else 0%nat in
  m !! k = bump (n_words + n_classes) None.
Proof.
  intros Hrhs_1 Hrhs_2 Hk.
  unfold _featurize_edge. simpl. unfold _featurize_binary_rule. simpl.
  intros Hrun.
  bind_inv Hrun. destruct (decide _) in Hrun; [|done].
  bind_inv Hrun. injection Hrun as <-.
  repeat match goal with
  | Hs : get_phrase fsa (VInt i1) (VInt j1) = Ok ?x |- _ =>
      rewrite Hrhs_1 in Hs; injection Hs as <-
  | Hs : get_phrase fsa (VInt i2) (VInt j2) = Ok ?x |- _ =>
      rewrite Hrhs_2 in Hs; injection Hs as <-
  end.
  rewrite lookup_iadd_ne by key_ne_by Hk.
  rewrite bump_add.
  destruct (word_class_features self); rewrite !lookup_skip_grams; cbn [bump].
  all: do 2 f_equal.
  all: match goal with
       | Hout : (if decide _ then _ else _) = Ok _ |- _ =>
           destruct (decide _) in Hout;
           [bind_inv Hout|]; injection Hout as <-
       end.
  all: rewrite !lookup_emit_enumerate_ne by key_ne_by Hk.
  all: destruct (py_eq _ _); by rewrite !lookup_iadd_ne by key_ne_by Hk.
Qed.

End coverage.

(** ** The further properties at concrete inputs *)

Section coverage_examples.
Import Demo.

(** X3 at rules without right-hand side and with three right-hand items. *)
Lemma rhs_first_item_only_witness :
  _featurize_edge (featurizer true true true)
    {| lhs := Span (Nonterminal "I") 0 0; rhs := [] |} (make_fsa sentence)
  = Raise IndexError
  ∧ _featurize_edge (featurizer true true true)
      {| lhs := Span (Nonterminal "I") 0 0; rhs := [word "le" 0 0; X 0 1; X 1 2] |}
      (make_fsa sentence)
    = _featurize_edge (featurizer true true true) insertion_rule (make_fsa sentence).
Proof.
  destruct (rhs_first_item_only (H := collaborators) (featurizer true true true)
              (make_fsa sentence) (Span (Nonterminal "I") 0 0)) as [Hnil Hcons].
  split; [exact Hnil|]. apply Hcons. simpl. lia.
Defined.

(** X4 at the rule [D:0-2 -> D:0-1 D:1-2]. *)
Lemma binary_rule_without_phrases_witness :
  _featurize_edge (featurizer true true true)
    {| lhs := Span (Nonterminal "D") 0 2;
       rhs := [Span (Nonterminal "D") 0 1; Span (Nonterminal "D") 1 2] |}
    (make_fsa sentence)
  = Ok {["binary:recursive_deletion" := f1; "type:binary" := f1]}.
Proof.
  exact (binary_rule_without_phrases (H := collaborators)
           (featurizer true true true) (make_fsa sentence) (Nonterminal "D") 0 2
           (Nonterminal "D") 0 1 (Nonterminal "D") 1 2 ltac:(discriminate)).
Defined.

(** X5 at the rule [X:0-1 -> 'le':0-1]. *)
Lemma terminal_rule_other_label_witness :
  _featurize_edge (featurizer true true true)
    {| lhs := X 0 1; rhs := [word "le" 0 1] |} (make_fsa sentence)
  = Ok {["type:terminal" := f1]}.
Proof.
  exact (terminal_rule_other_label (H := collaborators)
           (featurizer true true true) (make_fsa sentence) (Nonterminal "X") 0 1
           (Terminal "le") 0 1 ltac:(reflexivity) ltac:(discriminate)
           ltac:(discriminate) ltac:(discriminate)).
Defined.

(** X6 at the rule [D:0-1 -> '-EPS-':0-1]. *)
Lemma deletion_rule_scores_witness :
  ∃ m, _featurize_edge (featurizer true true true) deletion_rule (make_fsa sentence)
       = Ok m
       ∧ m !! "type:terminal" = Some f1
       ∧ m !! "type:deletion" = Some f1
       ∧ m !! "ibm1:del:logprob" = Some (f0 + np_log (0.25 + eps))%float
       ∧ m !! "target-len" = None.
Proof.
  eexists. split; [reflexivity|].
  exact (deletion_rule_scores (H := collaborators)
           (featurizer true true true) (make_fsa sentence)
           0 1 (word "-EPS-" 0 1) (VSym (Terminal "-EPS-")) (VInt 0) (VInt 1)
           "the" _ ltac:(reflexivity) ltac:(reflexivity) ltac:(reflexivity)
           ltac:(reflexivity)).
Defined.

(** X7 at the rule [D:0-1 -> '-EPS-':0-1], with a source-side table of
    dimension 2 and with one of dimension 3 whose vectors have two
    components. *)
Lemma deletion_dense_features_witness :
  (∃ m, _featurize_edge (featurizer true true true) deletion_rule (make_fsa sentence)
        = Ok m
        ∧ m !! "del:emb:dim-0" = Some 0.5%float
        ∧ m !! "del:emb:dim-1" = Some 0.25%float)
  ∧ _featurize_edge
      {| ibm1_probs := probs;
         embeddings_ch := emb 3 vec2 cluster;
         embeddings_en := emb 2 vec2 cluster;
         word_class_features := true;
         dense_word_emb_features := true;
         sparse_word_features := true |} deletion_rule (make_fsa sentence)
    = Raise IndexError.
Proof.
  split.
  - destruct (deletion_dense_features (H := collaborators)
                (featurizer true true true) (make_fsa sentence)
                0 1 (word "-EPS-" 0 1) (VSym (Terminal "-EPS-")) (VInt 0) (VInt 1)
                "the" ltac:(reflexivity) ltac:(reflexivity) ltac:(reflexivity)
                ltac:(reflexivity)) as [Hlong _].
    destruct Hlong as (m & Hrun & Hdims); [simpl; lia|].
    exists m. split; [exact Hrun|]. split.
    + apply (Hdims 0%nat). simpl. lia.
    + apply (Hdims 1%nat). simpl. lia.
  - apply (deletion_dense_features (H := collaborators)
             {| ibm1_probs := probs;
                embeddings_ch := emb 3 vec2 cluster;
                embeddings_en := emb 2 vec2 cluster;
                word_class_features := true;
                dense_word_emb_features := true;
                sparse_word_features := true |} (make_fsa sentence)
             0 1 (word "-EPS-" 0 1) (VSym (Terminal "-EPS-")) (VInt 0) (VInt 1)
             "the" ltac:(reflexivity) ltac:(reflexivity) ltac:(reflexivity)
             ltac:(reflexivity)).
    simpl. lia.
Defined.

(** X8 at the rule [I:0-0 -> 'le':0-0]. *)
Lemma insertion_rule_scores_witness :
  ∃ m, _featurize_edge (featurizer true true true) insertion_rule (make_fsa sentence)
       = Ok m
       ∧ m !! "type:terminal" = Some f1
       ∧ m !! "type:insertion" = Some f1
       ∧ m !! "target-len" = Some f1
       ∧ m !! "ibm1:ins:logprob" = Some (f0 + np_log (0.25 + eps))%float.
Proof.
  eexists. split; [reflexivity|].
  exact (insertion_rule_scores (H := collaborators)
           (featurizer true true true) (make_fsa sentence)
           0 0 (word "le" 0 0) (VSym (Terminal "le")) (VInt 0) (VInt 0)
           "le" _ ltac:(reflexivity) ltac:(reflexivity) ltac:(reflexivity)
           ltac:(reflexivity)).
Defined.

(** X9 at the rule [I:0-0 -> 'le':0-0] with two source sentences. *)
Lemma lattice_not_read_witness :
  _featurize_edge (featurizer true true true) insertion_rule (make_fsa "the cat")
  = _featurize_edge (featurizer true true true) insertion_rule (make_fsa "a dog sleeps").
Proof.
  exact (lattice_not_read (H := collaborators) (featurizer true true true)
           (make_fsa "the cat") (make_fsa "a dog sleeps") (Nonterminal "I") 0 0
           [word "le" 0 0] ltac:(discriminate) ltac:(discriminate)
           ltac:(discriminate)).
Defined.

(** X10 at the rule [T:0-1 -> 'le':0-1]: the vector of [the] minus the vector
    of [le]. *)
Lemma translation_dense_features_witness :
  ∃ m, _featurize_edge (featurizer true true true) translation_rule
         (make_fsa sentence) = Ok m
       ∧ m !! "type:translation" = Some f1
       ∧ m !! "target-len" = Some f1
       ∧ (∃ x y, get (embeddings_ch (featurizer true true true)) "the" !! 1%nat = Some x
                 ∧ get (embeddings_en (featurizer true true true)) "le" !! 1%nat = Some y
                 ∧ m !! "trans:emb:dim-1" = Some (x - y)%float).
Proof.
  eexists. split; [reflexivity|].
  destruct (translation_dense_features (H := collaborators)
              (featurizer true true true) (make_fsa sentence)
              0 1 (word "le" 0 1) (VSym (Terminal "le")) (VInt 0) (VInt 1)
              "the" "le" _ ltac:(reflexivity) ltac:(reflexivity)
              ltac:(reflexivity) ltac:(reflexivity) ltac:(reflexivity)
              ltac:(reflexivity)) as (Htype & Hlen & Hdims).
  split; [exact Htype|]. split; [exact Hlen|].
  apply (Hdims 1%nat). simpl. lia.
Defined.

(** X13 at the rule [X:0-2 -> X:0-1 X:1-2]. *)
Lemma binary_rule_ignores_dense_and_sparse_witness :
  _featurize_edge
    (with_dense_word_emb_features false
       (with_sparse_word_features false (featurizer true true true)))
    monotone_rule (make_fsa sentence)
  = _featurize_edge (featurizer true true true) monotone_rule (make_fsa sentence).
Proof.
  exact (binary_rule_ignores_dense_and_sparse (H := collaborators)
           (featurizer true true true) false false [X 0 1; X 1 2] (X 0 2)
           (make_fsa sentence) ltac:(reflexivity)).
Defined.

(** X20 at the rule [D:0-1 -> '-EPS-':0-1] with the sparse word features
    disabled. *)
Lemma word_class_needs_sparse_witness :
  _featurize_edge (featurizer true true false) deletion_rule (make_fsa sentence)
  = _featurize_edge (featurizer false true false) deletion_rule (make_fsa sentence).
Proof.
  exact (word_class_needs_sparse (H := collaborators) (featurizer true true false)
           deletion_rule (make_fsa sentence) ltac:(reflexivity)
           ltac:(discriminate)).
Defined.

(** X15 at a forest whose second edge has an empty inside phrase. *)
Lemma forest_first_failure_witness :
  featurize_parse_trees (featurizer true true true)
    ([translation_rule] ++ empty_span_rule :: [deletion_rule]) None sentence
  = Raise AssertionError
  ∧ featurize_parse_trees_batch (featurizer true true true)
      [([translation_rule] ++ empty_span_rule :: [deletion_rule], Some derivation,
        sentence, "le chat")]
    = Raise AssertionError.
Proof.
  destruct (forest_first_failure (H := collaborators) (featurizer true true true)
              [translation_rule] empty_span_rule [deletion_rule] None sentence
              AssertionError) as [Hsingle _].
  { repeat constructor. by eexists. }
  { reflexivity. }
  destruct (forest_first_failure (H := collaborators) (featurizer true true true)
              [translation_rule] empty_span_rule [deletion_rule] (Some derivation)
              sentence AssertionError) as [_ Hbatch].
  { repeat constructor. by eexists. }
  { reflexivity. }
  split; [exact Hsingle|apply Hbatch].
Defined.

(** X16 at a forest of one edge and a derivation whose last rule is that
    edge: the container holds two entries. *)
Lemma best_derivation_last_rule_witness :
  featurize_parse_trees (featurizer true true true) [translation_rule]
    (Some derivation) sentence
  = (fmap ← _featurize_edge (featurizer true true true) translation_rule
              (make_fsa sentence);
     Ok ([(translation_rule, fmap); (translation_rule, fmap)] : Features))
  ∧ featurize_parse_trees (featurizer true true true) [translation_rule]
      (Some {| _rules := [] |}) sentence
    = Raise IndexError.
Proof.
  assert (∃ fmap, _featurize_edge (featurizer true true true) translation_rule
                     (make_fsa sentence) = Ok fmap) as [fmap Hedge]
    by (by eexists).
  split.
  - rewrite (best_derivation_last_rule (H := collaborators)
               (featurizer true true true) [translation_rule] sentence [fmap]
               derivation) by (repeat constructor; exact Hedge).
    change (last (_rules derivation)) with (Some translation_rule).
    cbv beta iota. rewrite !Hedge. reflexivity.
  - rewrite (best_derivation_last_rule (H := collaborators)
               (featurizer true true true) [translation_rule] sentence [fmap]
               {| _rules := [] |}) by (repeat constructor; exact Hedge).
    reflexivity.
Defined.

(** X17 at the rule [X:0-2 -> X:0-1 X:1-2]. *)
Lemma binary_span_length_feature_witness :
  ∃ m, _featurize_edge (featurizer true true true) monotone_rule (make_fsa sentence)
       = Ok m
       ∧ m !! "type:binary" = Some f1
       ∧ m !! "source-span-len-2" = Some f1.
Proof.
  eexists. split; [reflexivity|].
  exact (binary_span_length_feature (H := collaborators)
           (featurizer true true true) (make_fsa sentence) 0 2
           (Nonterminal "X") 0 1 (Nonterminal "X") 1 2 _ ltac:(reflexivity)).
Defined.

(** X18 at the rule [X:1-3 -> X:1-2 X:2-3] over the sentence [le the cat]:
    the inside phrase is [the cat], the outside phrase is [le]. *)
Lemma binary_phrase_vectors_witness :
  ∃ m, _featurize_edge (featurizer true true true)
         {| lhs := X 1 3; rhs := [X 1 2; X 2 3] |} (make_fsa "le the cat")
       = Ok m
       ∧ m !! "inside-phrase-0" = Some 1.5%float
       ∧ m !! "outside-phrase-1" = Some 4%float.
Proof.
  eexists. split; [reflexivity|].
  pose proof (binary_phrase_vectors (H := collaborators)
                (featurizer true true true) (make_fsa "le the cat") 1 3
                (Nonterminal "X") 1 2 (Nonterminal "X") 2 3
                ["the"; "cat"] ["le"] [] _ vec2_wf ltac:(reflexivity)
                ltac:(reflexivity) ltac:(reflexivity) ltac:(reflexivity))
    as Hvectors.
  split.
  - exact (proj1 (Hvectors 0%nat)).
  - exact (proj2 (Hvectors 1%nat)).
Defined.

(** X19 at the rule [X:0-3 -> X:0-1 X:1-3] over the sentence [the the the]:
    three pairs of positions spell [skip-gram:the/the]. *)
Lemma binary_skip_gram_counts_witness :
  ∃ m, _featurize_edge (featurizer true true true)
         {| lhs := X 0 3; rhs := [X 0 1; X 1 3] |} (make_fsa "the the the")
       = Ok m
       ∧ m !! "skip-gram:the/the" = Some 3%float
       ∧ m !! "skip-gram:word-classes:7/7" = Some 3%float
       ∧ m !! "skip-gram:the/cat" = None.
Proof.
  eexists. split; [reflexivity|].
  split; [|split].
  - exact (binary_skip_gram_counts (H := collaborators)
             (featurizer true true true) (make_fsa "the the the") 0 3
             (Nonterminal "X") 0 1 (Nonterminal "X") 1 3 ["the"] ["the"; "the"]
             _ "skip-gram:the/the" ltac:(reflexivity) ltac:(reflexivity)
             ltac:(reflexivity) ltac:(reflexivity)).
  - exact (binary_skip_gram_counts (H := collaborators)
             (featurizer true true true) (make_fsa "the the the") 0 3
             (Nonterminal "X") 0 1 (Nonterminal "X") 1 3 ["the"] ["the"; "the"]
             _ "skip-gram:word-classes:7/7" ltac:(reflexivity) ltac:(reflexivity)
             ltac:(reflexivity) ltac:(reflexivity)).
  - exact (binary_skip_gram_counts (H := collaborators)
             (featurizer true true true) (make_fsa "the the the") 0 3
             (Nonterminal "X") 0 1 (Nonterminal "X") 1 3 ["the"] ["the"; "the"]
             _ "skip-gram:the/cat" ltac:(reflexivity) ltac:(reflexivity)
             ltac:(reflexivity) ltac:(reflexivity)).
Defined.

End coverage_examples.
